(** * Presentation widgets of the dashboard frontend, embedded in Rocq

    The development follows the TypeScript sources file by file:

    - [Timeline]: views/userJourneys/timeline.tsx
      ([extractHighlights], the icon loop of [CrumbItem], the [Timeline]
      component);
    - [SelectedFrame]: utils/profiling/renderers/selectedFrameRenderer.tsx
      ([draw] over a canvas context whose calls are logged);
    - [FileField]: components/forms/fileField.tsx ([handleFile], its
      [load] listener and the render function);
    - [Components]: the two components as functions of props and local
      state;
    - [JsonForm] and [CustomMetrics]: components of which only the test
      suites are among the sources.

    JavaScript values are modelled as the code has them: optional
    properties as [option], strings as [string], numbers that are only
    counted or compared as [nat], the numbers of the canvas geometry as
    IEEE binary64 [float], objects used as string-keyed maps as [gmap] or,
    where the enumeration order is observable, as insertion-ordered
    association lists.  Code that may throw returns a [Result] or an
    [option]; a loop whose end is not structural takes fuel. *)

From Stdlib Require Import List String Ascii Bool Arith ZArith QArith Qround Qabs.
From Stdlib Require Import Lia Floats.
From Stdlib Require Import DecimalString DecimalNat.
From stdpp Require Import gmap strings.
Import ListNotations.

Local Open Scope string_scope.
Local Open Scope list_scope.

Set Warnings "-register-all".

(** ** JavaScript helpers shared by the components *)

(** [String(n)] for a non-negative integer. *)
Definition String_of_nat (n : nat) : string :=
  NilEmpty.string_of_uint (Nat.to_uint n).

(** Truthiness of a string: only the empty string is falsy. *)
Definition truthy_string (s : string) : bool :=
  negb (String.eqb s "").

(** [Array.prototype.includes] on an array of strings. *)
Definition includes (xs : list string) (s : string) : bool :=
  existsb (String.eqb s) xs.

Lemma includes_In xs s : includes xs s = true <-> In s xs.
Proof.
  unfold includes. rewrite existsb_exists. split.
  - intros [x [Hx Heq]]. apply String.eqb_eq in Heq. now subst.
  - intros H. exists s. split; [assumption | apply String.eqb_refl].
Qed.

Lemma truthy_string_true s : truthy_string s = true <-> s <> "".
Proof.
  unfold truthy_string. rewrite negb_true_iff. apply String.eqb_neq.
Qed.

(** A rendered React element: a text node, or a component or tag with its
    props (the React key among them) and children. *)
Inductive Element :=
| text (s : string)
| element (tag : string) (props : list (string * string))
    (children : list Element).

(** A boolean prop as text. *)
Definition String_of_bool (b : bool) : string :=
  if b then "true" else "false".

(** Reading an array from index [i] on: [l[i]] is the head of the rest, or
    there is no rest. *)
Lemma skipn_nth_error_Some {A} (l : list A) i x :
  nth_error l i = Some x -> skipn i l = x :: skipn (S i) l.
Proof.
  revert i. induction l as [|y l IH]; intros [|i]; cbn; try discriminate.
  - intros H. now inversion H.
  - intros H. now apply IH.
Qed.

Lemma skipn_nth_error_None {A} (l : list A) i :
  nth_error l i = None -> skipn i l = [].
Proof.
  intros H. apply nth_error_None in H. now apply skipn_all2.
Qed.

(** ** views/userJourneys/timeline.tsx *)

Module Timeline.

(** The properties of a breadcrumb that the timeline reads. *)
Record Crumb := {
  crumb_type : string;
  crumb_category : option string;
  crumb_timestamp : option string;
  crumb_color : string;
  crumb_id : nat
}.

Definition NOTABLE_CATEGORIES : list string :=
  [ "ui.click";
    "navigation";
    "sentry.event";
    "sentry.transaction";
    "selection";
    "app.lifecycle";
    "click" ].

Record CrumbGroup := {
  active : bool;
  crumbs : list Crumb;
  timestamp : string
}.

(** The [mapping] object of [extractHighlights]: a string-keyed object whose
    entries are later enumerated, kept as an association list in insertion
    order (the order of [Object.entries] for keys that are not array
    indices). *)
Definition Mapping := list (string * list Crumb).

(** [mapping[k]], [None] for [undefined]. *)
Fixpoint lookup_key (m : Mapping) (k : string) : option (list Crumb) :=
  match m with
  | [] => None
  | (k', v) :: m' => if String.eqb k k' then Some v else lookup_key m' k
  end.

(** [mapping[k] = v]: an existing property keeps its place, a new one is
    added last. *)
Fixpoint assign_key (m : Mapping) (k : string) (v : list Crumb) : Mapping :=
  match m with
  | [] => [(k, v)]
  | (k', v') :: m' =>
      if String.eqb k k' then (k', v) :: m' else (k', v') :: assign_key m' k v
  end.

(** The filter callback of [extractHighlights]. *)
Definition is_relevant (crumb : Crumb) : bool :=
  match crumb_category crumb with
  | None => false
  | Some category =>
      if negb (truthy_string category) then false
      else includes NOTABLE_CATEGORIES category
  end.

Section WithMoment.

(** [moment(input).format(pattern)] of the moment library: the formatted
    time of [input] (a timestamp string, or [undefined]). *)
Variable moment_format : option string -> string -> string.

Definition keyFormat : string := "YYYY-MM-DDTHH:mm:ss".

Definition crumb_key (crumb : Crumb) : string :=
  moment_format (crumb_timestamp crumb) keyFormat.

(** [mapping[k].push(crumb)]: the array under [k] grows in place.  The
    callback only pushes where it has made sure of an array. *)
Definition push_key (m : Mapping) (k : string) (crumb : Crumb) : Mapping :=
  match lookup_key m k with
  | Some cs => assign_key m k (cs ++ [crumb])
  | None => m
  end.

(** The body of [relevant.forEach]: return for a crumb whose key is falsy,
    set the key to an empty array when it is [undefined], push the
    crumb. *)
Definition record_crumb (mapping : Mapping) (crumb : Crumb) : Mapping :=
  let timestamp := crumb_key crumb in
  if negb (truthy_string timestamp) then mapping
  else
    let mapping :=
      match lookup_key mapping timestamp with
      | None => assign_key mapping timestamp []
      | Some _ => mapping
      end in
    push_key mapping timestamp crumb.

Definition build_mapping (relevant : list Crumb) : Mapping :=
  fold_left record_crumb relevant [].

(** [activeTime === key], where [activeTime] is a string or [null]. *)
Definition same_time (activeTime : option string) (key : string) : bool :=
  match activeTime with
  | Some t => String.eqb t key
  | None => false
  end.

Definition extractHighlights (crumbs : list Crumb) (active : option Crumb)
  : list CrumbGroup :=
  let relevant := List.filter is_relevant crumbs in
  let mapping := build_mapping relevant in
  let activeTime :=
    match active with
    | Some a => Some (moment_format (crumb_timestamp a) keyFormat)
    | None => None
    end in
  List.map
    (fun entry =>
       {| timestamp := fst entry;
          crumbs := snd entry;
          active := same_time activeTime (fst entry) |})
    mapping.

(** The [IconWrapper] element pushed for a crumb: its React key, colour,
    offset, DOM id, and the type handed to the [CrumbIcon] child. *)
Record Icon := {
  icon_key : string;
  icon_color : string;
  icon_offset : nat;
  icon_id : string;
  icon_type : string
}.

Definition make_icon (crumb : Crumb) (i offset : nat) : Icon :=
  {| icon_key := crumb_type crumb ++ "-" ++ String_of_nat i;
     icon_color := crumb_color crumb;
     icon_offset := offset;
     icon_id :=
       "timeline-" ++ crumb_type crumb ++ "-" ++ String_of_nat (crumb_id crumb);
     icon_type := crumb_type crumb |}.

(** The [while] loop of [CrumbItem], one iteration per unit of fuel.
    [group.crumbs[i]] is [nth_error]; a crumb object is truthy and
    [undefined] is falsy.  [None] means the fuel ran out before the loop
    ended. *)
Fixpoint icon_loop (fuel : nat) (group_crumbs : list Crumb)
  (icons : list Icon) (i : nat) : option (list Icon) :=
  match fuel with
  | O => None
  | S fuel' =>
      if Nat.ltb (List.length icons) 5
         || negb (match nth_error group_crumbs i with Some _ => true | None => false end)
      then
        match nth_error group_crumbs i with
        | Some crumb =>
            icon_loop fuel' group_crumbs
              (icons ++ [make_icon crumb i (List.length icons)]) (S i)
        | None => Some icons
        end
      else Some icons
  end.

(** The [icons] array of [CrumbItem] when the loop is left. *)
Definition CrumbItem_icons (fuel : nat) (group : CrumbGroup) : option (list Icon) :=
  icon_loop fuel (crumbs group) [] 0.

(** One icon per crumb of [cs], numbered from [start]. *)
Fixpoint icons_from (start : nat) (cs : list Crumb) : list Icon :=
  match cs with
  | [] => []
  | c :: cs' => make_icon c start start :: icons_from (S start) cs'
  end.

Definition IconWrapper (icon : Icon) : Element :=
  element "IconWrapper"
    [ ("key", icon_key icon);
      ("color", icon_color icon);
      ("offset", String_of_nat (icon_offset icon));
      ("id", icon_id icon) ]
    [ element "CrumbIcon" [("type", icon_type icon); ("size", "md")] [] ].

(** What [CrumbItem] returns ([None] when the fuel does not cover the icon
    loop). *)
Definition CrumbItem (fuel : nat) (group : CrumbGroup) : option Element :=
  match CrumbItem_icons fuel group with
  | Some icons =>
      Some
        (element "ItemContainer" []
           [ element "AxisLine" [] [];
             element "IconStack" [] (List.map IconWrapper icons);
             element "ItemTime" [("active", String_of_bool (active group))]
               [ text (moment_format (Some (timestamp group)) "HH:mm:ss") ] ])
  | None => None
  end.

(** The crumb handed to [onActivateCrumb] by the click handler of a
    group. *)
Definition handleClick (group : CrumbGroup) : option Crumb :=
  nth_error (crumbs group) 0.

(** The props of [Timeline] from which it renders ([onActivateCrumb] is
    only called from the click handlers). *)
Record Props := {
  breadcrumbs : list Crumb;
  activeCrumb : option Crumb
}.

(** [notable.map((group, index) => <CrumbItem key=... />)], from [index]
    on. *)
Fixpoint render_items (fuel index : nat) (notable : list CrumbGroup)
  : option (list Element) :=
  match notable with
  | [] => Some []
  | group :: rest =>
      match CrumbItem fuel group, render_items fuel (S index) rest with
      | Some item, Some items =>
          Some
            (element "CrumbItem"
               [("key", (timestamp group ++ "-" ++ String_of_nat index)%string)]
               [item]
             :: items)
      | _, _ => None
      end
  end.

Definition Timeline (fuel : nat) (props : Props) : option Element :=
  let notable := extractHighlights (breadcrumbs props) (activeCrumb props) in
  let notable := List.rev notable in
  match render_items fuel 0 notable with
  | Some items =>
      Some (element "ScrollContainer" [] [element "ItemRow" [] items])
  | None => None
  end.

End WithMoment.

(** A crumb is notable when its category is present, non-empty and one of
    [NOTABLE_CATEGORIES]. *)
Definition notable (c : Crumb) : Prop :=
  exists category,
    crumb_category c = Some category /\ category <> "" /\
    In category NOTABLE_CATEGORIES.

Lemma is_relevant_notable c : is_relevant c = true <-> notable c.
Proof.
  unfold is_relevant, notable. destruct (crumb_category c) as [s|].
  - destruct (truthy_string s) eqn:Ht; cbn [negb].
    + rewrite includes_In. apply truthy_string_true in Ht. split.
      * intros Hin. exists s. auto.
      * intros [s' [Heq [_ Hin]]]. now inversion Heq.
    + split; [discriminate|].
      intros [s' [Heq [Hne _]]]. inversion Heq; subst s'.
      apply truthy_string_true in Hne. congruence.
  - split; [discriminate|]. intros [s' [Heq _]]. discriminate.
Qed.

(** *** The association list behind [mapping] *)

Lemma lookup_assign_eq m k v : lookup_key (assign_key m k v) k = Some v.
Proof.
  induction m as [|[k' v'] m IH]; cbn.
  - now rewrite String.eqb_refl.
  - destruct (String.eqb k k') eqn:E; cbn; rewrite E; auto.
Qed.

Lemma lookup_assign_ne m k k' v :
  k <> k' -> lookup_key (assign_key m k v) k' = lookup_key m k'.
Proof.
  intros Hne. induction m as [|[k0 v0] m IH]; cbn.
  - apply String.eqb_neq in Hne. rewrite String.eqb_sym in Hne. now rewrite Hne.
  - destruct (String.eqb k k0) eqn:E; cbn.
    + apply String.eqb_eq in E; subst k0.
      assert (String.eqb k' k = false) as ->; [|reflexivity].
      apply String.eqb_neq. congruence.
    + now rewrite IH.
Qed.

Lemma keys_assign m k v k' :
  In k' (List.map fst (assign_key m k v)) <-> k' = k \/ In k' (List.map fst m).
Proof.
  induction m as [|[k0 v0] m IH]; cbn.
  - intuition.
  - destruct (String.eqb k k0) eqn:E; cbn.
    + apply String.eqb_eq in E; subst k0. intuition.
    + rewrite IH. intuition.
Qed.

Lemma NoDup_keys_assign m k v :
  List.NoDup (List.map fst m) -> List.NoDup (List.map fst (assign_key m k v)).
Proof.
  induction m as [|[k0 v0] m IH]; cbn; intros Hnd.
  - constructor; [intros [] | constructor].
  - inversion Hnd as [|? ? Hnotin Hnd']; subst.
    destruct (String.eqb k k0) eqn:E; cbn.
    + constructor; assumption.
    + constructor; [|auto].
      rewrite keys_assign. intros [->|Hin]; [|contradiction].
      now rewrite String.eqb_refl in E.
Qed.

Lemma lookup_key_In m k v :
  List.NoDup (List.map fst m) -> (In (k, v) m <-> lookup_key m k = Some v).
Proof.
  induction m as [|[k0 v0] m IH]; cbn; intros Hnd.
  - split; [intros [] | discriminate].
  - inversion Hnd as [|? ? Hnotin Hnd']; subst.
    destruct (String.eqb k k0) eqn:E.
    + apply String.eqb_eq in E; subst k0. split.
      * intros [Heq|Hin]; [now inversion Heq|].
        exfalso. apply Hnotin. apply in_map_iff. now exists (k, v).
      * intros Heq. inversion Heq. now left.
    + rewrite <- (IH Hnd'). split.
      * intros [Heq|Hin]; [|assumption]. inversion Heq; subst.
        now rewrite String.eqb_refl in E.
      * intros Hin. now right.
Qed.

Lemma lookup_key_keys m k :
  In k (List.map fst m) <-> exists v, lookup_key m k = Some v.
Proof.
  induction m as [|[k0 v0] m IH]; cbn.
  - split; [intros [] | intros [v Hv]; discriminate].
  - destruct (String.eqb k k0) eqn:E.
    + apply String.eqb_eq in E; subst k0. split; eauto.
    + rewrite <- IH. split; [|auto].
      intros [->|Hin]; [|assumption]. now rewrite String.eqb_refl in E.
Qed.

(** *** The mapping built by [extractHighlights] *)

Section Grouping.

Variable moment_format : option string -> string -> string.

Local Abbreviation key := (crumb_key moment_format).

(** The crumbs of [l] whose key is [k], in their order in [l]. *)
Definition with_key (k : string) (l : list Crumb) : list Crumb :=
  List.filter (fun c => String.eqb (key c) k) l.

(** What the mapping holds under [k] once the crumbs [l] are recorded. *)
Definition group_for (k : string) (l : list Crumb) : option (list Crumb) :=
  if truthy_string k then
    match with_key k l with
    | [] => None
    | cs => Some cs
    end
  else None.

Lemma with_key_snoc k l c :
  with_key k (l ++ [c]) =
  with_key k l ++ (if String.eqb (key c) k then [c] else []).
Proof. unfold with_key. rewrite List.filter_app. reflexivity. Qed.

Lemma record_crumb_lookup m l c :
  (forall k, lookup_key m k = group_for k l) ->
  forall k, lookup_key (record_crumb moment_format m c) k = group_for k (l ++ [c]).
Proof.
  intros Hm k. unfold record_crumb, push_key, group_for. rewrite with_key_snoc.
  destruct (truthy_string (key c)) eqn:Hc; cbn [negb].
  - pose proof (Hm (key c)) as Hkc. unfold group_for in Hkc. rewrite Hc in Hkc.
    destruct (String.eqb (key c) k) eqn:E.
    + apply String.eqb_eq in E. subst k. rewrite Hc.
      destruct (with_key (key c) l) as [|c0 cs0]; rewrite Hkc.
      * now rewrite !lookup_assign_eq.
      * now rewrite Hkc, lookup_assign_eq.
    + apply String.eqb_neq in E. pose proof (Hm k) as Hk.
      unfold group_for in Hk. rewrite app_nil_r, <- Hk.
      destruct (lookup_key m (key c)) as [cs|] eqn:Hlk.
      * rewrite Hlk. now rewrite lookup_assign_ne.
      * rewrite lookup_assign_eq. now rewrite !lookup_assign_ne.
  - destruct (String.eqb (key c) k) eqn:E.
    + apply String.eqb_eq in E. subst k. rewrite Hc, Hm.
      unfold group_for. now rewrite Hc.
    + rewrite Hm, app_nil_r. reflexivity.
Qed.

Lemma record_crumb_NoDup m c :
  List.NoDup (List.map fst m) ->
  List.NoDup (List.map fst (record_crumb moment_format m c)).
Proof.
  intros Hnd. unfold record_crumb, push_key.
  destruct (negb (truthy_string (key c))); [assumption|].
  destruct (lookup_key m (key c)) as [cs|] eqn:Hm.
  - rewrite Hm. now apply NoDup_keys_assign.
  - rewrite lookup_assign_eq. now repeat apply NoDup_keys_assign.
Qed.

Lemma build_mapping_spec l :
  List.NoDup (List.map fst (build_mapping moment_format l)) /\
  forall k, lookup_key (build_mapping moment_format l) k = group_for k l.
Proof.
  unfold build_mapping. induction l as [|c l IH] using rev_ind.
  - split; [constructor|]. intros k. unfold group_for.
    now destruct (truthy_string k).
  - rewrite fold_left_app. cbn [fold_left]. destruct IH as [Hnd Hlk]. split.
    + now apply record_crumb_NoDup.
    + now apply record_crumb_lookup.
Qed.

Lemma group_for_Some k l cs :
  group_for k l = Some cs <-> k <> "" /\ cs = with_key k l /\ cs <> [].
Proof.
  unfold group_for. destruct (truthy_string k) eqn:Hk.
  - apply truthy_string_true in Hk. destruct (with_key k l) as [|c0 cs0].
    + split; [discriminate|]. intros [_ [-> Hne]]. congruence.
    + split.
      * intros Heq. inversion Heq. repeat split; [assumption|discriminate].
      * intros [_ [-> _]]. reflexivity.
  - split; [discriminate|]. intros [Hne _].
    apply truthy_string_true in Hne. congruence.
Qed.

Lemma filter_filter_crumbs (p q : Crumb -> bool) l :
  List.filter p (List.filter q l) = List.filter (fun c => q c && p c) l.
Proof.
  induction l as [|c l IH]; cbn; [reflexivity|].
  destruct (q c); cbn; [destruct (p c)|]; now rewrite IH.
Qed.

(** The groups are the entries of the mapping. *)
Lemma extractHighlights_keys breadcrumbs act :
  List.map timestamp (extractHighlights moment_format breadcrumbs act) =
  List.map fst (build_mapping moment_format (List.filter is_relevant breadcrumbs)).
Proof.
  unfold extractHighlights. rewrite List.map_map. reflexivity.
Qed.

Lemma extractHighlights_entry breadcrumbs act g :
  In g (extractHighlights moment_format breadcrumbs act) ->
  timestamp g <> "" /\
  crumbs g =
    List.filter (fun c => is_relevant c && String.eqb (key c) (timestamp g))
      breadcrumbs /\
  crumbs g <> [].
Proof.
  unfold extractHighlights. intros Hin. apply in_map_iff in Hin.
  destruct Hin as [[k v] [<- Hin]]. cbn.
  destruct (build_mapping_spec (List.filter is_relevant breadcrumbs)) as [Hnd Hlk].
  apply (lookup_key_In _ _ _ Hnd) in Hin. rewrite Hlk in Hin.
  apply group_for_Some in Hin. destruct Hin as [Hk [Hv Hne]].
  unfold with_key in Hv. rewrite filter_filter_crumbs in Hv.
  repeat split; congruence.
Qed.

Lemma extractHighlights_has_key breadcrumbs act k :
  In k (List.map timestamp (extractHighlights moment_format breadcrumbs act)) <->
  k <> "" /\ exists c, In c breadcrumbs /\ notable c /\ key c = k.
Proof.
  rewrite extractHighlights_keys, lookup_key_keys.
  destruct (build_mapping_spec (List.filter is_relevant breadcrumbs)) as [_ Hlk].
  split.
  - intros [v Hv]. rewrite Hlk in Hv. apply group_for_Some in Hv.
    destruct Hv as [Hk [Hv Hne]]. split; [assumption|].
    destruct v as [|c v]; [congruence|].
    assert (In c (with_key k (List.filter is_relevant breadcrumbs))) as Hc
      by (rewrite <- Hv; now left).
    unfold with_key in Hc. rewrite !filter_In in Hc.
    destruct Hc as [[Hin Hrel] Heq]. exists c.
    rewrite <- is_relevant_notable. apply String.eqb_eq in Heq. auto.
  - intros [Hk [c [Hin [Hrel Heq]]]].
    exists (with_key k (List.filter is_relevant breadcrumbs)).
    rewrite Hlk. apply group_for_Some. repeat split; [assumption|].
    assert (In c (with_key k (List.filter is_relevant breadcrumbs))) as Hc.
    { unfold with_key. rewrite !filter_In. rewrite is_relevant_notable.
      subst k. rewrite String.eqb_refl. auto. }
    intros Hnil. rewrite Hnil in Hc. destruct Hc.
Qed.

Lemma filter_same_key {A} (f : A -> string) (p : A -> bool) (k : string) l :
  List.NoDup (List.map f l) ->
  (forall x, In x l -> p x = true -> f x = k) ->
  List.length (List.filter p l) <= 1.
Proof.
  induction l as [|x l IH]; cbn; intros Hnd Hk; [lia|].
  inversion Hnd as [|? ? Hnotin Hnd']; subst.
  destruct (p x) eqn:Hp; cbn.
  - assert (List.filter p l = []) as ->; [|cbn; lia].
    destruct (List.filter p l) as [|y ys] eqn:Hf; [reflexivity|].
    assert (In y (List.filter p l)) as Hy by (rewrite Hf; now left).
    apply filter_In in Hy. destruct Hy as [Hy Hpy].
    exfalso. apply Hnotin. rewrite (Hk x) by auto.
    rewrite <- (Hk y) by auto. now apply in_map.
  - apply IH; auto.
Qed.

(** C9.  In the result of [extractHighlights] the group keys are pairwise
    distinct; a group is active exactly when an active crumb was supplied
    and the group's key is that crumb's timestamp in the key format; so at
    most one group is active, and none is when no active crumb is given. *)
Theorem extractHighlights_at_most_one_active
  (breadcrumbs : list Crumb) (act : option Crumb) :
  List.NoDup (List.map timestamp (extractHighlights moment_format breadcrumbs act)) /\
  (forall g, In g (extractHighlights moment_format breadcrumbs act) ->
     (active g = true <->
      exists a, act = Some a /\
                timestamp g = moment_format (crumb_timestamp a) keyFormat)) /\
  List.length (List.filter active (extractHighlights moment_format breadcrumbs act)) <= 1 /\
  (forall g, In g (extractHighlights moment_format breadcrumbs None) ->
     active g = false).
Proof.
  assert (forall g, In g (extractHighlights moment_format breadcrumbs act) ->
     (active g = true <->
      exists a, act = Some a /\
                timestamp g = moment_format (crumb_timestamp a) keyFormat)) as Hact.
  { intros g Hin. unfold extractHighlights in Hin. apply in_map_iff in Hin.
    destruct Hin as [[k v] [<- _]]. cbn. destruct act as [a|]; cbn.
    - rewrite String.eqb_eq. split.
      + intros <-. now exists a.
      + intros [a' [Heq ->]]. now inversion Heq.
    - split; [discriminate|]. intros [a' [Heq _]]. discriminate. }
  assert (List.NoDup
            (List.map timestamp (extractHighlights moment_format breadcrumbs act)))
    as Hnd.
  { rewrite extractHighlights_keys. apply build_mapping_spec. }
  repeat split.
  - exact Hnd.
  - apply Hact; assumption.
  - apply Hact; assumption.
  - destruct act as [a|].
    + apply (filter_same_key timestamp active
               (moment_format (crumb_timestamp a) keyFormat)); [exact Hnd|].
      intros g Hin Hg. apply (Hact g Hin) in Hg.
      destruct Hg as [a' [Heq ->]]. now inversion Heq.
    + assert (List.filter active
                (extractHighlights moment_format breadcrumbs None) = []) as ->;
        [|cbn; lia].
      unfold extractHighlights. induction (build_mapping _ _); cbn; auto.
  - intros g Hin. unfold extractHighlights in Hin. apply in_map_iff in Hin.
    destruct Hin as [[k v] [<- _]]. reflexivity.
Qed.

(** Every key that moment produces for the key format is a non-empty
    string: the pattern has literal separators, and an unparsable input is
    formatted as the text "Invalid date". *)
Hypothesis moment_format_nonempty :
  forall input, moment_format input keyFormat <> "".

(** C1.  [extractHighlights] groups the breadcrumbs by formatted timestamp.
    The key of a crumb is its timestamp formatted by moment with the
    pattern 'YYYY-MM-DDTHH:mm:ss'.  The group keys are pairwise distinct; a
    key has a group exactly when it is the key of a notable input crumb;
    the crumbs of a group are exactly the notable input crumbs with the
    group's key (as a list: the input filtered by these two conditions); a
    crumb without a category, with an empty one, or with one outside
    [NOTABLE_CATEGORIES] is in no group. *)
Theorem extractHighlights_groups_by_key
  (breadcrumbs : list Crumb) (act : option Crumb) :
  List.NoDup (List.map timestamp (extractHighlights moment_format breadcrumbs act)) /\
  (forall k,
     In k (List.map timestamp (extractHighlights moment_format breadcrumbs act)) <->
     exists c,
       In c breadcrumbs /\ notable c /\
       moment_format (crumb_timestamp c) "YYYY-MM-DDTHH:mm:ss" = k) /\
  (forall g, In g (extractHighlights moment_format breadcrumbs act) ->
     crumbs g =
     List.filter
       (fun c =>
          is_relevant c &&
          String.eqb (moment_format (crumb_timestamp c) "YYYY-MM-DDTHH:mm:ss")
            (timestamp g))
       breadcrumbs) /\
  (forall g c, In g (extractHighlights moment_format breadcrumbs act) ->
     (In c (crumbs g) <->
      In c breadcrumbs /\ notable c /\
      moment_format (crumb_timestamp c) "YYYY-MM-DDTHH:mm:ss" = timestamp g)) /\
  (forall g c, In g (extractHighlights moment_format breadcrumbs act) ->
     ~ notable c -> ~ In c (crumbs g)).
Proof using moment_format_nonempty.
  assert (forall g c, In g (extractHighlights moment_format breadcrumbs act) ->
     (In c (crumbs g) <->
      In c breadcrumbs /\ notable c /\
      moment_format (crumb_timestamp c) "YYYY-MM-DDTHH:mm:ss" = timestamp g))
    as Hmem.
  { intros g c Hin. apply extractHighlights_entry in Hin.
    destruct Hin as [_ [-> _]]. rewrite filter_In, andb_true_iff.
    rewrite is_relevant_notable, String.eqb_eq.
    unfold crumb_key, keyFormat. tauto. }
  split; [|split; [|split; [|split]]].
  - rewrite extractHighlights_keys. apply build_mapping_spec.
  - intros k. rewrite extractHighlights_has_key.
    unfold crumb_key, keyFormat. split.
    + intros [_ H]. exact H.
    + intros [c [Hin [Hn Hk]]]. split; [|eauto].
      subst k. apply (moment_format_nonempty (crumb_timestamp c)).
  - intros g Hin. apply extractHighlights_entry in Hin.
    destruct Hin as [_ [Hcs _]]. exact Hcs.
  - exact Hmem.
  - intros g c Hin Hnot Hc. apply (Hmem g c Hin) in Hc. tauto.
Qed.

End Grouping.

(** *** A run on concrete breadcrumbs *)

(** A stand-in for moment on ISO 8601 timestamps given in the zone of the
    display, for the examples: the date and time up to the seconds (the
    first 19 characters), and moment's "Invalid date" when there is no
    input. *)
Definition iso_seconds (input : option string) (pattern : string) : string :=
  match input with
  | Some s =>
      match substring 0 19 s with
      | EmptyString => "Invalid date"
      | String a rest => String a rest
      end
  | None => "Invalid date"
  end.

Lemma iso_seconds_nonempty input : iso_seconds input keyFormat <> "".
Proof.
  unfold iso_seconds. destruct input as [s|]; [|discriminate].
  destruct (substring 0 19 s); discriminate.
Qed.

Definition click_crumb : Crumb :=
  {| crumb_type := "ui"; crumb_category := Some "ui.click";
     crumb_timestamp := Some "2022-10-05T12:00:01.120Z";
     crumb_color := "purple300"; crumb_id := 0 |}.

Definition navigation_crumb : Crumb :=
  {| crumb_type := "navigation"; crumb_category := Some "navigation";
     crumb_timestamp := Some "2022-10-05T12:00:01.870Z";
     crumb_color := "green300"; crumb_id := 1 |}.

Definition console_crumb : Crumb :=
  {| crumb_type := "debug"; crumb_category := Some "console";
     crumb_timestamp := Some "2022-10-05T12:00:02.000Z";
     crumb_color := "purple300"; crumb_id := 2 |}.

Definition bare_crumb : Crumb :=
  {| crumb_type := "default"; crumb_category := None;
     crumb_timestamp := Some "2022-10-05T12:00:02.500Z";
     crumb_color := "gray300"; crumb_id := 3 |}.

Definition late_click_crumb : Crumb :=
  {| crumb_type := "ui"; crumb_category := Some "click";
     crumb_timestamp := Some "2022-10-05T12:00:03.010Z";
     crumb_color := "purple300"; crumb_id := 4 |}.

Definition sample_breadcrumbs : list Crumb :=
  [click_crumb; navigation_crumb; console_crumb; bare_crumb; late_click_crumb].

Example extractHighlights_sample :
  extractHighlights iso_seconds sample_breadcrumbs (Some late_click_crumb) =
  [ {| active := false; crumbs := [click_crumb; navigation_crumb];
       timestamp := "2022-10-05T12:00:01" |};
    {| active := true; crumbs := [late_click_crumb];
       timestamp := "2022-10-05T12:00:03" |} ].
Proof. vm_compute. reflexivity. Qed.

(** The theorem on the sample breadcrumbs, with the stand-in formatter. *)
Lemma extractHighlights_groups_by_key_sample :
  (forall input, iso_seconds input keyFormat <> "") /\
  forall g, In g (extractHighlights iso_seconds sample_breadcrumbs None) ->
    crumbs g =
    List.filter
      (fun c => is_relevant c &&
                String.eqb
                  (iso_seconds (crumb_timestamp c) "YYYY-MM-DDTHH:mm:ss")
                  (timestamp g))
      sample_breadcrumbs.
Proof.
  split.
  - exact iso_seconds_nonempty.
  - exact (proj1 (proj2 (proj2
      (extractHighlights_groups_by_key iso_seconds iso_seconds_nonempty
         sample_breadcrumbs None)))).
Defined.

(** *** The icon loop of [CrumbItem] *)

Lemma icons_from_length start cs :
  List.length (icons_from start cs) = List.length cs.
Proof.
  revert start. induction cs as [|c cs IH]; intros start; cbn; auto.
Qed.

Lemma icons_from_type start cs :
  List.map icon_type (icons_from start cs) = List.map crumb_type cs.
Proof.
  revert start. induction cs as [|c cs IH]; intros start; cbn; [reflexivity|].
  now rewrite IH.
Qed.

(** The loop from any reachable state: with [i] icons pushed, enough fuel
    leaves the loop having pushed the next [5 - i] crumbs, or as many as
    there are. *)
Lemma icon_loop_spec fuel group_crumbs icons i :
  List.length icons = i ->
  5 - i < fuel ->
  icon_loop fuel group_crumbs icons i =
  Some (icons ++ icons_from i (firstn (5 - i) (skipn i group_crumbs))).
Proof.
  revert icons i. induction fuel as [|fuel IH]; intros icons i Hlen Hfuel; [lia|].
  cbn [icon_loop]. rewrite Hlen.
  destruct (Nat.ltb i 5) eqn:Hlt; cbn [orb].
  - apply Nat.ltb_lt in Hlt.
    destruct (nth_error group_crumbs i) as [c|] eqn:Hnth.
    + rewrite IH; [|rewrite length_app; cbn; lia|lia].
      rewrite (skipn_nth_error_Some _ _ _ Hnth).
      replace (5 - i) with (S (5 - S i)) by lia. cbn [firstn icons_from].
      now rewrite <- app_assoc.
    + rewrite (skipn_nth_error_None _ _ Hnth), firstn_nil. cbn.
      now rewrite app_nil_r.
  - apply Nat.ltb_ge in Hlt. replace (5 - i) with 0 by lia. cbn [firstn icons_from].
    rewrite app_nil_r. now destruct (nth_error group_crumbs i).
Qed.

(** C8.  The icon loop of [CrumbItem] ends within six iterations whatever
    the size of the group, and leaves in [icons] one icon per crumb of the
    first five crumbs of the group, in their order: [min 5 n] icons for a
    group of [n] crumbs. *)
Theorem CrumbItem_icons_front (group : CrumbGroup) (extra : nat) :
  CrumbItem_icons (6 + extra) group =
    Some (icons_from 0 (firstn 5 (crumbs group))) /\
  List.length (icons_from 0 (firstn 5 (crumbs group))) =
    Nat.min 5 (List.length (crumbs group)) /\
  List.map icon_type (icons_from 0 (firstn 5 (crumbs group))) =
    List.map crumb_type (firstn 5 (crumbs group)).
Proof.
  split; [|split].
  - unfold CrumbItem_icons. rewrite icon_loop_spec; [reflexivity|reflexivity|lia].
  - rewrite icons_from_length. apply length_firstn.
  - apply icons_from_type.
Qed.

(** Six iterations are enough for every group, so [Timeline] renders. *)
Lemma render_items_total moment_format extra groups : forall index,
  exists items,
    render_items moment_format (6 + extra) index groups = Some items /\
    List.length items = List.length groups.
Proof.
  induction groups as [|group groups IH]; intros index; cbn [render_items].
  - now exists [].
  - destruct (IH (S index)) as [items [-> Hlen]].
    unfold CrumbItem, CrumbItem_icons.
    rewrite icon_loop_spec; [|reflexivity|lia].
    eexists. split; [reflexivity|]. cbn. now rewrite Hlen.
Qed.

Lemma Timeline_total moment_format extra props :
  exists tree, Timeline moment_format (6 + extra) props = Some tree.
Proof.
  unfold Timeline.
  destruct (render_items_total moment_format extra
              (List.rev
                 (extractHighlights moment_format (breadcrumbs props)
                    (activeCrumb props))) 0) as [items [-> _]].
  eauto.
Qed.

Example CrumbItem_icons_seven :
  option_map (List.map icon_key)
    (CrumbItem_icons 6
       {| active := false;
          crumbs := [click_crumb; navigation_crumb; console_crumb; bare_crumb;
                     late_click_crumb; click_crumb; navigation_crumb];
          timestamp := "2022-10-05T12:00:01" |}) =
  Some ["ui-0"; "navigation-1"; "debug-2"; "default-3"; "ui-4"].
Proof. vm_compute. reflexivity. Qed.

Example CrumbItem_icons_two :
  option_map (List.map icon_offset)
    (CrumbItem_icons 3
       {| active := false; crumbs := [click_crumb; navigation_crumb];
          timestamp := "2022-10-05T12:00:01" |}) =
  Some [0; 1].
Proof. vm_compute. reflexivity. Qed.

(** *** What the groups hold *)

Section Groups.

Variable moment_format : option string -> string -> string.

Local Abbreviation key := (crumb_key moment_format).

(** The crumbs that end up in a group: notable, with a key that is not
    falsy. *)
Definition is_grouped (c : Crumb) : bool :=
  is_relevant c && truthy_string (key c).

Lemma assign_key_fresh_concat m k :
  lookup_key m k = None ->
  List.concat (List.map snd (assign_key m k [])) = List.concat (List.map snd m).
Proof.
  induction m as [|[k' v'] m IH]; cbn; [reflexivity|].
  destruct (String.eqb k k'); [discriminate|].
  intros H. cbn. now rewrite IH.
Qed.

Lemma push_key_concat m k cs c :
  lookup_key m k = Some cs ->
  Permutation
    (List.concat (List.map snd (push_key m k c)))
    (List.concat (List.map snd m) ++ [c]).
Proof.
  unfold push_key. intros Hm. rewrite Hm. revert Hm.
  induction m as [|[k' v'] m IH]; cbn; [discriminate|].
  destruct (String.eqb k k'); cbn.
  - intros H. inversion H; subst v'. rewrite <- !app_assoc.
    apply Permutation_app_head. apply Permutation_app_comm.
  - intros H. rewrite <- app_assoc. apply Permutation_app_head. now apply IH.
Qed.

Lemma record_crumb_concat m c :
  Permutation
    (List.concat (List.map snd (record_crumb moment_format m c)))
    (List.concat (List.map snd m) ++
     (if truthy_string (key c) then [c] else [])).
Proof.
  unfold record_crumb. destruct (truthy_string (key c)); cbn [negb].
  - destruct (lookup_key m (key c)) as [cs|] eqn:Hm.
    + now apply (push_key_concat _ _ cs).
    + rewrite <- (assign_key_fresh_concat m (key c) Hm).
      apply (push_key_concat _ _ []). apply lookup_assign_eq.
  - now rewrite app_nil_r.
Qed.

Lemma build_mapping_concat l :
  Permutation
    (List.concat (List.map snd (build_mapping moment_format l)))
    (List.filter (fun c => truthy_string (key c)) l).
Proof.
  unfold build_mapping. induction l as [|c l IH] using rev_ind; [reflexivity|].
  rewrite fold_left_app, List.filter_app. cbn [fold_left List.filter].
  etransitivity; [apply record_crumb_concat|].
  apply Permutation_app; [exact IH|]. now destruct (truthy_string (key c)).
Qed.

(** The groups partition the notable crumbs: taken together, the crumbs of
    the groups are the notable input crumbs whose key is not falsy, each as
    often as it occurs in the input. *)
Theorem extractHighlights_partition
  (breadcrumbs : list Crumb) (act : option Crumb) :
  Permutation
    (List.concat
       (List.map crumbs (extractHighlights moment_format breadcrumbs act)))
    (List.filter is_grouped breadcrumbs).
Proof.
  unfold extractHighlights. rewrite List.map_map. cbn [crumbs].
  etransitivity; [apply build_mapping_concat|].
  rewrite filter_filter_crumbs. reflexivity.
Qed.

(** No group is empty or has an empty key, so the click handler of every
    item of the timeline hands a crumb to [onActivateCrumb], never
    [undefined]: the first notable input crumb with the group's key. *)
Theorem handleClick_activates_notable_crumb
  (breadcrumbs : list Crumb) (act : option Crumb) :
  Forall
    (fun g =>
       timestamp g <> "" /\
       exists c rest,
         handleClick g = Some c /\
         crumbs g = c :: rest /\
         In c breadcrumbs /\ notable c /\ key c = timestamp g)
    (extractHighlights moment_format breadcrumbs act).
Proof.
  apply List.Forall_forall. intros g Hin.
  destruct (extractHighlights_entry moment_format _ _ _ Hin) as [Hk [Hcs Hne]].
  split; [exact Hk|].
  destruct (crumbs g) as [|c rest] eqn:Hg; [congruence|].
  exists c, rest. unfold handleClick. rewrite Hg. split; [reflexivity|].
  split; [reflexivity|].
  assert (In c (List.filter
                  (fun c => is_relevant c && String.eqb (key c) (timestamp g))
                  breadcrumbs)) as Hc by (rewrite <- Hcs; now left).
  apply filter_In in Hc. destruct Hc as [Hc Hb].
  apply andb_true_iff in Hb. destruct Hb as [Hrel Heq].
  apply is_relevant_notable in Hrel. apply String.eqb_eq in Heq. auto.
Qed.

Lemma filter_singleton {A} (p : A -> bool) (l : list A) (x : A) :
  List.length (List.filter p l) <= 1 -> In x l -> p x = true ->
  List.filter p l = [x].
Proof.
  intros Hlen Hin Hp.
  assert (In x (List.filter p l)) as Hx by (apply filter_In; auto).
  destruct (List.filter p l) as [|y [|z ys]]; cbn in *; [tauto| |lia].
  destruct Hx as [->|[]]. reflexivity.
Qed.

Hypothesis moment_format_nonempty :
  forall input, moment_format input keyFormat <> "".

(** When the active crumb is a notable crumb of the input, exactly one
    group is active, and it is the group that holds the active crumb.
    When no notable crumb of the input has the key of the active crumb, no
    group is active. *)
Theorem active_group_holds_active_crumb
  (breadcrumbs : list Crumb) (a : Crumb) :
  (In a breadcrumbs -> notable a ->
   exists g,
     List.filter active
       (extractHighlights moment_format breadcrumbs (Some a)) = [g] /\
     timestamp g = key a /\ In a (crumbs g)) /\
  ((forall c, In c breadcrumbs -> notable c -> key c <> key a) ->
   List.filter active
     (extractHighlights moment_format breadcrumbs (Some a)) = []).
Proof using moment_format_nonempty.
  split.
  - intros Hin Hnot.
    assert (In (key a)
              (List.map timestamp
                 (extractHighlights moment_format breadcrumbs (Some a)))) as Hk.
    { apply extractHighlights_has_key. split; [apply moment_format_nonempty|].
      exists a. auto. }
    apply in_map_iff in Hk. destruct Hk as [g [Hg Hing]].
    exists g. split; [|split; [exact Hg|]].
    + apply filter_singleton; [|exact Hing|].
      * apply (filter_same_key timestamp active (key a)).
        -- rewrite extractHighlights_keys. apply build_mapping_spec.
        -- intros g' Hg' Hact. unfold extractHighlights in Hg'.
           apply in_map_iff in Hg'. destruct Hg' as [[k v] [<- _]].
           cbn in *. apply String.eqb_eq in Hact. now symmetry.
      * unfold extractHighlights in Hing. apply in_map_iff in Hing.
        destruct Hing as [[k v] [<- _]]. cbn in *. subst k.
        apply String.eqb_refl.
    + destruct (extractHighlights_entry moment_format _ _ _ Hing) as [_ [-> _]].
      apply filter_In. split; [exact Hin|].
      apply andb_true_iff. split; [now apply is_relevant_notable|].
      rewrite Hg. apply String.eqb_refl.
  - intros Hnone.
    destruct (List.filter active
                (extractHighlights moment_format breadcrumbs (Some a)))
      as [|g gs] eqn:Hf; [reflexivity|].
    assert (In g (List.filter active
                    (extractHighlights moment_format breadcrumbs (Some a))))
      as Hg by (rewrite Hf; now left).
    apply filter_In in Hg. destruct Hg as [Hing Hact].
    assert (timestamp g = key a) as Hk.
    { unfold extractHighlights in Hing. apply in_map_iff in Hing.
      destruct Hing as [[k v] [<- _]]. cbn in *.
      apply String.eqb_eq in Hact. now symmetry. }
    assert (In (timestamp g)
              (List.map timestamp
                 (extractHighlights moment_format breadcrumbs (Some a))))
      as Hin by now apply in_map.
    apply extractHighlights_has_key in Hin.
    destruct Hin as [_ [c [Hc [Hn Hkc]]]].
    exfalso. apply (Hnone c Hc Hn). congruence.
Qed.

End Groups.

(** The active crumb of the sample breadcrumbs and its group. *)
Lemma active_group_holds_active_crumb_sample :
  exists g,
    List.filter active
      (extractHighlights iso_seconds sample_breadcrumbs (Some navigation_crumb))
      = [g] /\
    timestamp g = crumb_key iso_seconds navigation_crumb /\
    In navigation_crumb (crumbs g).
Proof.
  apply (proj1 (active_group_holds_active_crumb iso_seconds iso_seconds_nonempty
                  sample_breadcrumbs navigation_crumb)).
  - right. now left.
  - exists "navigation". repeat split; [discriminate|].
    right. now left.
Defined.

(** *** The order of the groups *)

(** [Object.entries] lists the properties whose name is an array index (the
    canonical decimal text of an integer below [2^32 - 1]) first, by
    ascending index, and then the other properties in the order in which
    they were created. *)
Definition is_digit (c : ascii) : bool :=
  (Nat.leb 48 (nat_of_ascii c) && Nat.leb (nat_of_ascii c) 57)%bool.

Fixpoint all_digits (s : string) : bool :=
  match s with
  | EmptyString => true
  | String c s' => is_digit c && all_digits s'
  end.

(** The number written by a text of digits. *)
Fixpoint digits_value (acc : N) (s : string) : N :=
  match s with
  | EmptyString => acc
  | String c s' =>
      digits_value (10 * acc + N.of_nat (nat_of_ascii c - 48))%N s'
  end.

Definition is_array_index (s : string) : bool :=
  match s with
  | EmptyString => false
  | String c rest =>
      all_digits s
      && (negb (Ascii.eqb c "0") || String.eqb rest "")
      && N.ltb (digits_value 0 s) (2 ^ 32 - 1)
  end.

Fixpoint insert_by_index (entry : string * list Crumb) (sorted : Mapping)
  : Mapping :=
  match sorted with
  | [] => [entry]
  | e :: sorted' =>
      if N.leb (digits_value 0 (fst entry)) (digits_value 0 (fst e))
      then entry :: sorted
      else e :: insert_by_index entry sorted'
  end.

Definition Object_entries (m : Mapping) : Mapping :=
  fold_right insert_by_index []
    (List.filter (fun entry => is_array_index (fst entry)) m)
  ++ List.filter (fun entry => negb (is_array_index (fst entry))) m.

(** The first occurrences of the texts of [ks], in their order. *)
Definition first_occurrences (ks : list string) : list string :=
  List.rev (nodup String.string_dec (List.rev ks)).

Lemma Object_entries_plain m :
  (forall k, In k (List.map fst m) -> is_array_index k = false) ->
  Object_entries m = m.
Proof.
  intros Hplain. unfold Object_entries.
  assert (List.filter (fun entry => is_array_index (fst entry)) m = []) as ->.
  { induction m as [|[k v] m IH]; cbn; [reflexivity|].
    rewrite (Hplain k) by now left.
    apply IH. intros k' Hk'. apply Hplain. now right. }
  cbn. induction m as [|[k v] m IH]; cbn; [reflexivity|].
  rewrite (Hplain k) by now left. cbn. f_equal.
  apply IH. intros k' Hk'. apply Hplain. now right.
Qed.

Lemma keys_assign_key m k v :
  List.map fst (assign_key m k v) =
  match lookup_key m k with
  | Some _ => List.map fst m
  | None => List.map fst m ++ [k]
  end.
Proof.
  induction m as [|[k' v'] m IH]; cbn; [reflexivity|].
  destruct (String.eqb k k') eqn:E; cbn; [reflexivity|].
  rewrite IH. now destruct (lookup_key m k).
Qed.

Lemma first_occurrences_snoc ks k :
  first_occurrences (ks ++ [k]) =
  if in_dec String.string_dec k (first_occurrences ks)
  then first_occurrences ks
  else first_occurrences ks ++ [k].
Proof.
  unfold first_occurrences. rewrite rev_app_distr. cbn [List.rev app nodup].
  destruct (in_dec String.string_dec k (List.rev ks)) as [Hin|Hnin];
    destruct (in_dec String.string_dec k
                (List.rev (nodup String.string_dec (List.rev ks))))
      as [Hin'|Hnin']; try reflexivity.
  - exfalso. apply Hnin'. apply -> in_rev. now apply nodup_In.
  - exfalso. apply Hnin. apply in_rev in Hin'. now apply nodup_In in Hin'.
Qed.

Section Order.

Variable moment_format : option string -> string -> string.

Local Abbreviation key := (crumb_key moment_format).

Lemma keys_record_crumb m c :
  List.map fst (record_crumb moment_format m c) =
  if truthy_string (key c) then
    if in_dec String.string_dec (key c) (List.map fst m)
    then List.map fst m
    else List.map fst m ++ [key c]
  else List.map fst m.
Proof.
  unfold record_crumb, push_key.
  destruct (truthy_string (key c)); cbn [negb]; [|reflexivity].
  destruct (lookup_key m (key c)) as [cs|] eqn:Hm.
  - rewrite Hm, keys_assign_key, Hm.
    destruct (in_dec String.string_dec (key c) (List.map fst m)) as [|Hnin];
      [reflexivity|].
    exfalso. apply Hnin. apply lookup_key_keys. eauto.
  - rewrite lookup_assign_eq, keys_assign_key, lookup_assign_eq.
    rewrite keys_assign_key, Hm.
    destruct (in_dec String.string_dec (key c) (List.map fst m)) as [Hin|];
      [|reflexivity].
    apply lookup_key_keys in Hin. destruct Hin as [v Hv]. congruence.
Qed.

Lemma keys_build_mapping l :
  List.map fst (build_mapping moment_format l) =
  first_occurrences (List.filter truthy_string (List.map key l)).
Proof.
  unfold build_mapping. induction l as [|c l IH] using rev_ind; [reflexivity|].
  rewrite fold_left_app, List.map_app, List.filter_app.
  cbn [fold_left List.map List.filter].
  rewrite keys_record_crumb, IH.
  destruct (truthy_string (key c)).
  - now rewrite first_occurrences_snoc.
  - now rewrite app_nil_r.
Qed.

Lemma keys_of_grouped l :
  List.filter truthy_string (List.map key (List.filter is_relevant l)) =
  List.map key (List.filter (is_grouped moment_format) l).
Proof.
  unfold is_grouped. induction l as [|c l IH]; cbn; [reflexivity|].
  destruct (is_relevant c); cbn; [|assumption].
  destruct (truthy_string (key c)); cbn; now rewrite IH.
Qed.

(** Moment's texts for the key format (a date and time with separators, or
    "Invalid date") are no array indices. *)
Hypothesis moment_format_plain :
  forall input, is_array_index (moment_format input keyFormat) = false.

(** The groups come in the order in which their keys first occur among the
    notable crumbs of the input: the keys are no array indices, so
    [Object.entries] lists the mapping in the order in which the keys were
    added. *)
Theorem extractHighlights_order
  (breadcrumbs : list Crumb) (act : option Crumb) :
  Object_entries
    (build_mapping moment_format (List.filter is_relevant breadcrumbs)) =
  build_mapping moment_format (List.filter is_relevant breadcrumbs) /\
  List.map timestamp (extractHighlights moment_format breadcrumbs act) =
  first_occurrences
    (List.map key (List.filter (is_grouped moment_format) breadcrumbs)).
Proof using moment_format_plain.
  split.
  - apply Object_entries_plain. intros k Hk.
    rewrite keys_build_mapping in Hk. unfold first_occurrences in Hk.
    apply in_rev in Hk. apply nodup_In in Hk. apply in_rev in Hk.
    apply filter_In in Hk. destruct Hk as [Hk _].
    apply in_map_iff in Hk. destruct Hk as [c [<- _]].
    apply moment_format_plain.
  - rewrite extractHighlights_keys, keys_build_mapping.
    now rewrite keys_of_grouped.
Qed.

End Order.

(** The stand-in formatter, made to answer "Invalid date" where it would
    give an array index. *)
Definition iso_seconds_text (input : option string) (pattern : string)
  : string :=
  if is_array_index (iso_seconds input pattern) then "Invalid date"
  else iso_seconds input pattern.

Lemma iso_seconds_text_plain input :
  is_array_index (iso_seconds_text input keyFormat) = false.
Proof.
  unfold iso_seconds_text.
  destruct (is_array_index (iso_seconds input keyFormat)) eqn:E;
    [reflexivity|exact E].
Qed.

(** The order of the groups of the sample breadcrumbs. *)
Lemma extractHighlights_order_sample :
  List.map timestamp
    (extractHighlights iso_seconds_text
       (late_click_crumb :: sample_breadcrumbs) None) =
  ["2022-10-05T12:00:03"; "2022-10-05T12:00:01"].
Proof.
  rewrite (proj2 (extractHighlights_order iso_seconds_text
                    iso_seconds_text_plain
                    (late_click_crumb :: sample_breadcrumbs) None)).
  vm_compute. reflexivity.
Defined.

(** *** The layout and the React keys of the icons and items *)

(** The interpolations of the [IconWrapper] style that place an icon:
    [top] and [left] in pixels, and [z-index]. *)
Definition IconWrapper_top (offset : nat) : Z := (Z.of_nat offset * -8 + 40)%Z.
Definition IconWrapper_left (offset : nat) : Z := (Z.of_nat offset * 4)%Z.
Definition IconWrapper_z_index (offset : nat) : Z := (5 - Z.of_nat offset)%Z.

(** The React key of a rendered element, when it has one. *)
Definition element_key (e : Element) : option string :=
  match e with
  | text _ => None
  | element _ props _ =>
      option_map snd
        (List.find (fun prop => String.eqb (fst prop) "key") props)
  end.

Fixpoint no_dash (s : string) : bool :=
  match s with
  | EmptyString => true
  | String c s' => negb (Ascii.eqb c "-") && no_dash s'
  end.

Lemma append_String c (s t : string) :
  (String c s ++ t)%string = String c (s ++ t)%string.
Proof. reflexivity. Qed.

Lemma append_Empty (s : string) : ("" ++ s)%string = s.
Proof. reflexivity. Qed.

Lemma no_dash_append_dash (s d : string) :
  no_dash (s ++ String "-" d)%string = false.
Proof.
  induction s as [|c s IH]; [reflexivity|].
  rewrite append_String. cbn [no_dash]. rewrite IH. apply andb_false_r.
Qed.

Lemma dash_suffix_inj_String (s1 s2 d1 d2 : string) :
  no_dash d1 = true -> no_dash d2 = true ->
  (s1 ++ String "-" d1)%string = (s2 ++ String "-" d2)%string ->
  s1 = s2 /\ d1 = d2.
Proof.
  intros H1 H2. revert s2.
  induction s1 as [|c s1 IH]; intros [|c' s2] Heq;
    rewrite ?append_Empty, ?append_String in Heq; inversion Heq; subst.
  - auto.
  - now rewrite no_dash_append_dash in H1.
  - now rewrite no_dash_append_dash in H2.
  - destruct (IH s2 ltac:(assumption)) as [-> ->]. auto.
Qed.

(** A text ending in a dash and digits determines both parts. *)
Lemma dash_suffix_inj (s1 s2 d1 d2 : string) :
  no_dash d1 = true -> no_dash d2 = true ->
  (s1 ++ "-" ++ d1)%string = (s2 ++ "-" ++ d2)%string ->
  s1 = s2 /\ d1 = d2.
Proof.
  intros H1 H2 Heq. now apply dash_suffix_inj_String.
Qed.

Lemma String_of_nat_no_dash n : no_dash (String_of_nat n) = true.
Proof.
  unfold String_of_nat. induction (Nat.to_uint n) as [|d IH|d IH|d IH|d IH|d IH|d IH|d IH|d IH|d IH|d IH];
    cbn; auto.
Qed.

Lemma String_of_nat_inj n m : String_of_nat n = String_of_nat m -> n = m.
Proof.
  unfold String_of_nat. intros H. apply Unsigned.to_uint_inj.
  apply (f_equal NilEmpty.uint_of_string) in H.
  rewrite !NilEmpty.usu in H. now inversion H.
Qed.

Lemma numbered_key_inj (s1 s2 : string) (i j : nat) :
  (s1 ++ "-" ++ String_of_nat i)%string = (s2 ++ "-" ++ String_of_nat j)%string ->
  s1 = s2 /\ i = j.
Proof.
  intros H. apply dash_suffix_inj in H; try apply String_of_nat_no_dash.
  destruct H as [-> H]. split; [reflexivity|]. now apply String_of_nat_inj.
Qed.

Lemma NoDup_map_through {A B C} (f : A -> B) (g : A -> C) (l : list A) :
  (forall x y, In x l -> In y l -> f x = f y -> g x = g y) ->
  List.NoDup (List.map g l) -> List.NoDup (List.map f l).
Proof.
  induction l as [|x l IH]; cbn; intros Hfg Hnd; [constructor|].
  inversion Hnd as [|? ? Hnotin Hnd']; subst. constructor.
  - intros Hin. apply in_map_iff in Hin. destruct Hin as [y [Heq Hy]].
    apply Hnotin. apply in_map_iff. exists y. split; [|exact Hy].
    apply Hfg; auto.
  - apply IH; [|exact Hnd']. intros a b Ha Hb. apply Hfg; auto.
Qed.

Lemma icons_from_offsets start cs :
  List.map icon_offset (icons_from start cs) = seq start (List.length cs).
Proof.
  revert start. induction cs as [|c cs IH]; intros start; cbn; [reflexivity|].
  now rewrite IH.
Qed.

Lemma icons_from_key start cs icon :
  In icon (icons_from start cs) ->
  icon_key icon =
  (icon_type icon ++ "-" ++ String_of_nat (icon_offset icon))%string.
Proof.
  revert start. induction cs as [|c cs IH]; intros start; cbn; [tauto|].
  intros [<-|Hin]; [reflexivity|]. now apply (IH (S start)).
Qed.

(** The icons of an item are stacked without ties and inside the item: the
    offsets of the icons are [0, 1, ...] up to their number, which is at
    most five, so that every icon has a [z-index] from 1 to 5, a [top] from
    8 to 40 pixels and a [left] from 0 to 16 pixels. *)
Theorem CrumbItem_icons_layout (group : CrumbGroup) (extra : nat) :
  exists icons,
    CrumbItem_icons (6 + extra) group = Some icons /\
    List.map icon_offset icons =
      seq 0 (Nat.min 5 (List.length (crumbs group))) /\
    Forall
      (fun icon =>
         (1 <= IconWrapper_z_index (icon_offset icon) <= 5)%Z /\
         (8 <= IconWrapper_top (icon_offset icon) <= 40)%Z /\
         (0 <= IconWrapper_left (icon_offset icon) <= 16)%Z)
      icons.
Proof.
  exists (icons_from 0 (firstn 5 (crumbs group))).
  assert (List.map icon_offset (icons_from 0 (firstn 5 (crumbs group))) =
          seq 0 (Nat.min 5 (List.length (crumbs group)))) as Hoff
    by (now rewrite icons_from_offsets, length_firstn).
  split; [|split; [exact Hoff|]].
  - unfold CrumbItem_icons. rewrite icon_loop_spec; [reflexivity|reflexivity|lia].
  - apply List.Forall_forall. intros icon Hin.
    assert (In (icon_offset icon)
              (seq 0 (Nat.min 5 (List.length (crumbs group))))) as Hseq
      by (rewrite <- Hoff; now apply in_map).
    apply in_seq in Hseq.
    unfold IconWrapper_z_index, IconWrapper_top, IconWrapper_left. lia.
Qed.

(** The React keys of the icons of an item are pairwise distinct. *)
Theorem CrumbItem_icon_keys_distinct (group : CrumbGroup) (extra : nat) :
  exists icons,
    CrumbItem_icons (6 + extra) group = Some icons /\
    List.NoDup (List.map icon_key icons) /\
    List.NoDup (List.map element_key (List.map IconWrapper icons)).
Proof.
  exists (icons_from 0 (firstn 5 (crumbs group))).
  assert (List.NoDup
            (List.map icon_key (icons_from 0 (firstn 5 (crumbs group))))) as Hnd.
  { apply (NoDup_map_through icon_key icon_offset).
    - intros a b Ha Hb Heq.
      rewrite (icons_from_key _ _ _ Ha), (icons_from_key _ _ _ Hb) in Heq.
      now apply numbered_key_inj in Heq.
    - rewrite icons_from_offsets. apply seq_NoDup. }
  split; [|split; [exact Hnd|]].
  - unfold CrumbItem_icons. rewrite icon_loop_spec; [reflexivity|reflexivity|lia].
  - rewrite List.map_map. cbn [element_key IconWrapper List.find fst snd].
    cbn. apply (NoDup_map_through _ icon_key).
    + intros a b _ _ Heq. now inversion Heq.
    + exact Hnd.
Qed.

Section Items.

Variable moment_format : option string -> string -> string.

(** The keys [`${group.timestamp}-${index}`] of the items rendered for
    [groups], numbered from [index]. *)
Fixpoint item_keys (index : nat) (groups : list CrumbGroup) : list string :=
  match groups with
  | [] => []
  | group :: rest =>
      (timestamp group ++ "-" ++ String_of_nat index)%string
      :: item_keys (S index) rest
  end.

Lemma item_keys_numbered index groups k :
  In k (item_keys index groups) ->
  exists t i, index <= i /\ k = (t ++ "-" ++ String_of_nat i)%string.
Proof.
  revert index. induction groups as [|g groups IH]; intros index; cbn; [tauto|].
  intros [<-|Hin].
  - exists (timestamp g), index. auto.
  - destruct (IH _ Hin) as [t [i [Hle ->]]]. exists t, i. split; [lia|reflexivity].
Qed.

Lemma item_keys_NoDup index groups : List.NoDup (item_keys index groups).
Proof.
  revert index. induction groups as [|g groups IH]; intros index; cbn;
    constructor; [|apply IH].
  intros Hin. destruct (item_keys_numbered _ _ _ Hin) as [t [i [Hle Heq]]].
  apply numbered_key_inj in Heq. lia.
Qed.

Lemma render_items_keys extra groups : forall index,
  exists items,
    render_items moment_format (6 + extra) index groups = Some items /\
    List.map element_key items = List.map Some (item_keys index groups).
Proof.
  induction groups as [|group groups IH]; intros index; cbn [render_items].
  - now exists [].
  - destruct (IH (S index)) as [items [-> Hkeys]].
    unfold CrumbItem, CrumbItem_icons.
    rewrite icon_loop_spec; [|reflexivity|lia].
    eexists. split; [reflexivity|]. cbn. now rewrite Hkeys.
Qed.

(** [Timeline] renders one item per group, and the React keys of the items
    are pairwise distinct. *)
Theorem Timeline_item_keys_distinct (props : Props) (extra : nat) :
  exists items,
    Timeline moment_format (6 + extra) props =
      Some (element "ScrollContainer" [] [element "ItemRow" [] items]) /\
    List.length items =
      List.length
        (extractHighlights moment_format (breadcrumbs props) (activeCrumb props)) /\
    List.NoDup (List.map element_key items) /\
    Forall (fun item => element_key item <> None) items.
Proof.
  unfold Timeline.
  destruct (render_items_keys extra
              (List.rev
                 (extractHighlights moment_format (breadcrumbs props)
                    (activeCrumb props))) 0) as [items [-> Hkeys]].
  exists items. split; [reflexivity|].
  assert (List.length items =
          List.length (List.map element_key items)) as Hlen
    by now rewrite length_map.
  split; [|split].
  - rewrite Hlen, Hkeys, length_map.
    assert (forall i gs, List.length (item_keys i gs) = List.length gs) as Hl
      by (intros i gs; revert i; induction gs; intros i; cbn; auto).
    now rewrite Hl, length_rev.
  - rewrite Hkeys. apply (NoDup_map_through _ (fun k => k)).
    + intros a b _ _ Heq. now inversion Heq.
    + rewrite List.map_id. apply item_keys_NoDup.
  - apply List.Forall_forall. intros item Hin Hnone.
    assert (In (element_key item) (List.map element_key items)) as Hk
      by now apply in_map.
    rewrite Hkeys, Hnone in Hk. apply in_map_iff in Hk.
    destruct Hk as [k [Hk _]]. discriminate.
Qed.

End Items.

Example is_array_index_cases :
  List.map is_array_index
    ["0"; "10"; "4294967294"; "4294967295"; "01"; ""; "1e3";
     "2022-10-05T12:00:03"; "Invalid date"] =
  [true; true; true; false; false; false; false; false; false].
Proof. vm_compute. reflexivity. Qed.

End Timeline.

(** ** utils/profiling/renderers/selectedFrameRenderer.tsx *)

Module SelectedFrame.

Local Open Scope float_scope.

(** Modelled from the spec: the [Rect] class of utils/profiling/gl/utils,
    which is not among the sources, as the renderer uses it.  A rectangle
    has an origin and a size; [withWidth] and [withHeight] return the
    rectangle with one dimension replaced; [translate x y] returns the
    rectangle placed at the origin [(x, y)], which is how [draw] calls it
    (with the frame's own origin plus an offset). *)
Record Rect := {
  x : float;
  y : float;
  width : float;
  height : float
}.

Definition withWidth (r : Rect) (w : float) : Rect :=
  {| x := x r; y := y r; width := w; height := height r |}.

Definition withHeight (r : Rect) (h : float) : Rect :=
  {| x := x r; y := y r; width := width r; height := h |}.

Definition translate (r : Rect) (x' y' : float) : Rect :=
  {| x := x'; y := y'; width := width r; height := height r |}.

(** The [style] argument of [draw]. *)
Record Style := {
  BORDER_COLOR : string;
  BORDER_WIDTH : float
}.

(** A call made on the canvas context, with the stroke style and line
    width in force when it is made. *)
Inductive Call :=
| beginPath
| strokeRect (rx ry rw rh : float) (style : string) (line : float).

(** A [CanvasRenderingContext2D]: the two properties [draw] assigns and the
    calls received so far, oldest first. *)
Record Context := {
  strokeStyle : string;
  lineWidth : float;
  calls : list Call
}.

Definition set_strokeStyle (c : Context) (s : string) : Context :=
  {| strokeStyle := s; lineWidth := lineWidth c; calls := calls c |}.

Definition set_lineWidth (c : Context) (w : float) : Context :=
  {| strokeStyle := strokeStyle c; lineWidth := w; calls := calls c |}.

Definition call (c : Context) (k : Call) : Context :=
  {| strokeStyle := strokeStyle c; lineWidth := lineWidth c;
     calls := calls c ++ [k] |}.

Definition call_beginPath (c : Context) : Context := call c beginPath.

Definition call_strokeRect (c : Context) (rx ry rw rh : float) : Context :=
  call c (strokeRect rx ry rw rh (strokeStyle c) (lineWidth c)).

Section Renderer.

(** gl-matrix's [mat3], and [Rect.transformRect], which maps a rectangle
    through such a matrix. *)
Variable mat3 : Type.
Variable transformRect : Rect -> mat3 -> Rect.

(** The rectangle computed in the loop body from a frame in physical
    space. *)
Definition borderRect (style : Style) (frameInPhysicalSpace : Rect) : Rect :=
  translate
    (withHeight
       (withWidth frameInPhysicalSpace
          (width frameInPhysicalSpace - BORDER_WIDTH style))
       (height frameInPhysicalSpace - BORDER_WIDTH style))
    (x frameInPhysicalSpace + BORDER_WIDTH style / 2)
    (y frameInPhysicalSpace + BORDER_WIDTH style / 2).

(** One iteration of the [for] loop, for the frame [frames[i]]. *)
Definition draw_frame (style : Style) (configViewToPhysicalSpace : mat3)
  (context : Context) (frame : Rect) : Context :=
  let frameInPhysicalSpace := transformRect frame configViewToPhysicalSpace in
  let r := borderRect style frameInPhysicalSpace in
  call_strokeRect (call_beginPath context) (x r) (y r) (width r) (height r).

(** The [for] loop from index [i] with [n] iterations left
    ([n = frames.length - i]).  Reading [frames[i]] past the end gives
    [undefined], on which the method call throws: [None]. *)
Fixpoint draw_loop (n i : nat) (frames : list Rect) (style : Style)
  (configViewToPhysicalSpace : mat3) (context : Context) : option Context :=
  match n with
  | O => Some context
  | S n' =>
      match nth_error frames i with
      | None => None
      | Some frame =>
          draw_loop n' (S i) frames style configViewToPhysicalSpace
            (draw_frame style configViewToPhysicalSpace context frame)
      end
  end.

Definition draw (frames : list Rect) (style : Style)
  (configViewToPhysicalSpace : mat3) (context : Context) : option Context :=
  let context := set_strokeStyle context (BORDER_COLOR style) in
  let context := set_lineWidth context (BORDER_WIDTH style) in
  draw_loop (List.length frames) 0 frames style configViewToPhysicalSpace context.

(** The calls one frame adds to the context. *)
Definition frame_calls (style : Style) (configViewToPhysicalSpace : mat3)
  (frame : Rect) : list Call :=
  let r := borderRect style (transformRect frame configViewToPhysicalSpace) in
  [ beginPath;
    strokeRect (x r) (y r) (width r) (height r)
      (BORDER_COLOR style) (BORDER_WIDTH style) ].

(** The rectangles stroked by a sequence of calls, oldest first. *)
Fixpoint stroked (cs : list Call) : list (float * float * float * float) :=
  match cs with
  | [] => []
  | beginPath :: cs' => stroked cs'
  | strokeRect rx ry rw rh _ _ :: cs' => (rx, ry, rw, rh) :: stroked cs'
  end.

Lemma stroked_app cs1 cs2 : stroked (cs1 ++ cs2) = stroked cs1 ++ stroked cs2.
Proof.
  induction cs1 as [|[|rx ry rw rh st ln] cs1 IH]; cbn; [reflexivity|assumption|].
  now rewrite IH.
Qed.

(** The calls one frame adds when the context has the style [color] and
    [line]. *)
Definition frame_calls_in (color : string) (line : float) (style : Style)
  (configViewToPhysicalSpace : mat3) (frame : Rect) : list Call :=
  let r := borderRect style (transformRect frame configViewToPhysicalSpace) in
  [beginPath; strokeRect (x r) (y r) (width r) (height r) color line].

Lemma draw_frame_spec style m context frame :
  draw_frame style m context frame =
  {| strokeStyle := strokeStyle context;
     lineWidth := lineWidth context;
     calls := calls context ++
              frame_calls_in (strokeStyle context) (lineWidth context)
                style m frame |}.
Proof.
  unfold draw_frame, call_strokeRect, call_beginPath, call, frame_calls_in.
  cbn. now rewrite <- app_assoc.
Qed.

(** The loop never reads past the end of [frames], and appends the calls
    of the remaining frames in order. *)
Lemma draw_loop_spec (n : nat) : forall (i : nat) frames style m context,
  (i + n)%nat = List.length frames ->
  draw_loop n i frames style m context =
  Some {| strokeStyle := strokeStyle context;
          lineWidth := lineWidth context;
          calls := calls context ++
                   flat_map
                     (frame_calls_in (strokeStyle context) (lineWidth context)
                        style m)
                     (skipn i frames) |}.
Proof.
  induction n as [|n IH]; intros i frames style m context Hlen; cbn [draw_loop].
  - rewrite skipn_all2 by lia. cbn. rewrite app_nil_r. now destruct context.
  - destruct (nth_error frames i) as [frame|] eqn:Hnth.
    + rewrite IH by lia. rewrite draw_frame_spec. cbn.
      rewrite (skipn_nth_error_Some _ _ _ Hnth). cbn [flat_map].
      now rewrite <- app_assoc.
    + apply nth_error_None in Hnth. lia.
Qed.

Lemma draw_spec frames style m context :
  draw frames style m context =
  Some {| strokeStyle := BORDER_COLOR style;
          lineWidth := BORDER_WIDTH style;
          calls := calls context ++ flat_map (frame_calls style m) frames |}.
Proof.
  unfold draw. rewrite draw_loop_spec by reflexivity. reflexivity.
Qed.

Lemma stroked_frame_calls style m frames :
  stroked (flat_map (frame_calls style m) frames) =
  List.map
    (fun frame =>
       let r := borderRect style (transformRect frame m) in
       (x r, y r, width r, height r))
    frames.
Proof.
  induction frames as [|frame frames IH]; cbn; [reflexivity|].
  now rewrite IH.
Qed.


(** C10.  For a frame whose rectangle in physical space is [(x, y, w, h)]
    and a border width [bw], the rectangle handed to [strokeRect] is
    [(x + bw / 2, y + bw / 2, w - bw, h - bw)]: moved inwards by half the
    border width, and smaller by the border width in each dimension, in
    JavaScript's double arithmetic. *)
Theorem draw_strokes_inset_rect
  (frames : list Rect) (style : Style) (configViewToPhysicalSpace : mat3)
  (context : Context) :
  option_map (fun context' => stroked (calls context'))
    (draw frames style configViewToPhysicalSpace context) =
  Some
    (stroked (calls context) ++
     List.map
       (fun frame =>
          let p := transformRect frame configViewToPhysicalSpace in
          let bw := BORDER_WIDTH style in
          (x p + bw / 2, y p + bw / 2, width p - bw, height p - bw))
       frames).
Proof.
  rewrite draw_spec. cbn [option_map calls].
  rewrite stroked_app, stroked_frame_calls. reflexivity.
Qed.

(** Drawing a list of frames in one call is drawing its parts one after the
    other with the same style and matrix: the renderer keeps nothing
    between calls but what it leaves in the context. *)
Theorem draw_app
  (frames1 frames2 : list Rect) (style : Style)
  (configViewToPhysicalSpace : mat3) (context : Context) :
  draw (frames1 ++ frames2) style configViewToPhysicalSpace context =
  match draw frames1 style configViewToPhysicalSpace context with
  | Some context' => draw frames2 style configViewToPhysicalSpace context'
  | None => None
  end.
Proof.
  rewrite !draw_spec. cbn [calls]. rewrite flat_map_app, app_assoc.
  reflexivity.
Qed.

End Renderer.

(** *** A run on concrete frames *)

(** A stand-in for a view-to-physical-space matrix in the examples: a
    scale and an offset per axis. *)
Record ScaleOffset := {
  scale_x : float; scale_y : float; offset_x : float; offset_y : float
}.

Definition scale_offset_rect (r : Rect) (m : ScaleOffset) : Rect :=
  {| x := x r * scale_x m + offset_x m;
     y := y r * scale_y m + offset_y m;
     width := width r * scale_x m;
     height := height r * scale_y m |}.

Definition blank_context : Context :=
  {| strokeStyle := "#000000"; lineWidth := 1; calls := [] |}.

Example draw_two_frames :
  option_map calls
    (draw ScaleOffset scale_offset_rect
       [ {| x := 0; y := 0; width := 50; height := 10 |};
         {| x := 5; y := 10; width := 20; height := 10 |} ]
       {| BORDER_COLOR := "#3482ea"; BORDER_WIDTH := 2 |}
       {| scale_x := 2; scale_y := 2; offset_x := 10; offset_y := 20 |}
       blank_context) =
  Some [ beginPath; strokeRect 11 21 98 18 "#3482ea" 2;
         beginPath; strokeRect 21 41 38 18 "#3482ea" 2 ].
Proof. vm_compute. reflexivity. Qed.

End SelectedFrame.

(** ** components/forms/fileField.tsx *)

Module FileField.

(** The part of a [File] that the component reads. *)
Record File := {
  name : string;
  size : nat
}.

(** The change event of the file input: [e.target.files]. *)
Record ChangeEvent := {
  files : list File
}.

(** [s.split(sep)] for a one-character separator. *)
Fixpoint split (sep : ascii) (s : string) : list string :=
  match s with
  | EmptyString => [EmptyString]
  | String c s' =>
      if Ascii.eqb c sep then EmptyString :: split sep s'
      else
        match split sep s' with
        | [] => [String c EmptyString]
        | piece :: pieces => String c piece :: pieces
        end
  end.

(** [(reader.result as string).split(',')[1]]; [None] is [undefined]. *)
Definition payload (result : string) : option string :=
  nth_error (split "," result) 1.

(** What a file selection does that can be observed from outside the
    handler: the state updates, the start of the read, the reader's [load]
    event, and the call of the field's [onChange] with its value
    [[file.name, payload]] and the change event. *)
Inductive Op :=
| setUploading (b : bool)
| readAsDataURL (file : File)
| load (result : string)
| onChange (value : string * option string) (e : ChangeEvent).

(** The [load] listener registered by [handleFile]: a closure over the
    selected file and the change event ([onChange] is the field's own
    callback). *)
Record Listener := {
  listener_file : File;
  listener_event : ChangeEvent
}.

(** The component with the readers it has created.  Every call of
    [handleFile] makes a new [FileReader]; readers are numbered in the
    order of creation, and each entry of the trace carries the number of
    the reader it belongs to.  [reading] holds the readers whose read is in
    progress, with their listener. *)
Record State := {
  isUploading : bool;
  reading : list (nat * Listener);
  readers : nat;
  trace : list (nat * Op)
}.

Definition initial : State :=
  {| isUploading := false; reading := []; readers := 0; trace := [] |}.

Fixpoint listener_of (rs : list (nat * Listener)) (reader : nat) : option Listener :=
  match rs with
  | [] => None
  | (r, l) :: rs' => if Nat.eqb r reader then Some l else listener_of rs' reader
  end.

Definition finished (rs : list (nat * Listener)) (reader : nat)
  : list (nat * Listener) :=
  List.filter (fun entry => negb (Nat.eqb (fst entry) reader)) rs.

(** [handleFile(onChange, e)].  When [e.target.files[0]] is [undefined],
    [readAsDataURL] throws after [setUploading(true)]: no read starts. *)
Definition handleFile (s : State) (e : ChangeEvent) : State :=
  let reader := readers s in
  match nth_error (files e) 0 with
  | Some file =>
      {| isUploading := true;
         reading :=
           reading s ++
           [(reader, {| listener_file := file; listener_event := e |})];
         readers := S reader;
         trace :=
           trace s ++ [(reader, setUploading true); (reader, readAsDataURL file)] |}
  | None =>
      {| isUploading := true;
         reading := reading s;
         readers := S reader;
         trace := trace s ++ [(reader, setUploading true)] |}
  end.

(** The [load] event of [reader] with the data URL [result]: the listener
    calls [onChange] and then [setUploading(false)].  A reader that is not
    reading fires no event. *)
Definition handleLoad (s : State) (reader : nat) (result : string) : State :=
  match listener_of (reading s) reader with
  | Some l =>
      {| isUploading := false;
         reading := finished (reading s) reader;
         readers := readers s;
         trace :=
           trace s ++
           [ (reader, load result);
             (reader,
              onChange (name (listener_file l), payload result)
                (listener_event l));
             (reader, setUploading false) ] |}
  | None => s
  end.

(** What happens to the mounted component: the user selects files, or a
    read completes. *)
Inductive Input :=
| change (e : ChangeEvent)
| loaded (reader : nat) (result : string).

Definition step (s : State) (i : Input) : State :=
  match i with
  | change e => handleFile s e
  | loaded reader result => handleLoad s reader result
  end.

Definition run (inputs : list Input) : State :=
  fold_left step inputs initial.

(** The operations of one reader, in the order of the trace. *)
Definition ops_of (reader : nat) (t : list (nat * Op)) : list Op :=
  List.map snd (List.filter (fun entry => Nat.eqb (fst entry) reader) t).

(** The operations of a selection of [file] by the event [e], once its
    read has completed with [result]. *)
Definition completed (file : File) (e : ChangeEvent) (result : string) : list Op :=
  [ setUploading true;
    readAsDataURL file;
    load result;
    onChange (name file, payload result) e;
    setUploading false ].

Fixpoint no_comma (s : string) : bool :=
  match s with
  | EmptyString => true
  | String c s' => negb (Ascii.eqb c ",") && no_comma s'
  end.

(** The props of [FileField]: [accept], and the remaining props, which are
    passed on to [InputField]. *)
Record Props := {
  accept : option (list string);
  rest : list (string * string)
}.

(** lodash's [omit] on an object of text props. *)
Definition omit (props : list (string * string)) (keys : list string)
  : list (string * string) :=
  List.filter (fun prop => negb (includes keys (fst prop))) props.

(** The [field] render prop: the file input and, while [isUploading], the
    upload indicator. *)
Definition field (isUploading : bool) (fieldProps : list (string * string))
  : Element :=
  element "Fragment" []
    [ element "Input"
        (omit fieldProps ["value"; "onBlur"; "onKeyDown"] ++ [("type", "file")])
        [];
      if isUploading
      then element "div" []
             [text "This is a janky upload indicator. Wait to hit save!"]
      else text "" ].

(** What [FileField] returns for its props and the current value of its
    [isUploading] state.  [InputField], which is not among the sources, is
    kept as an element around what [field] returns for the props it is
    given. *)
Definition FileField (props : Props) (isUploading : bool) : Element :=
  element "InputField"
    (rest props ++
     match accept props with
     | Some types => [("accept", String.concat ", " types)]
     | None => []
     end)
    [field isUploading (rest props)].

(** *** The payload handed to [onChange] *)

Lemma split_no_comma s : no_comma s = true -> split "," s = [s].
Proof.
  induction s as [|c s IH]; cbn; [reflexivity|].
  intros H. apply andb_true_iff in H. destruct H as [Hc Hs].
  apply negb_true_iff in Hc. rewrite Hc, (IH Hs). reflexivity.
Qed.

Lemma split_first_comma header rest :
  no_comma header = true ->
  split "," (header ++ "," ++ rest) = header :: split "," rest.
Proof.
  induction header as [|c header IH]; intros H.
  - reflexivity.
  - cbn [no_comma] in H. apply andb_true_iff in H. destruct H as [Hc Hs].
    apply negb_true_iff in Hc.
    change (split "," (String c (header ++ "," ++ rest)) =
            String c header :: split "," rest).
    cbn [split]. rewrite Hc, (IH Hs). reflexivity.
Qed.

Lemma payload_after_comma header data :
  no_comma header = true -> no_comma data = true ->
  payload (header ++ "," ++ data) = Some data.
Proof.
  intros Hh Hd. unfold payload.
  rewrite (split_first_comma _ _ Hh), (split_no_comma _ Hd). reflexivity.
Qed.

(** *** The order of operations of a selection *)

Lemma ops_of_app reader t1 t2 :
  ops_of reader (t1 ++ t2) = ops_of reader t1 ++ ops_of reader t2.
Proof. unfold ops_of. now rewrite List.filter_app, List.map_app. Qed.

Lemma listener_of_app rs1 rs2 reader :
  listener_of (rs1 ++ rs2) reader =
  match listener_of rs1 reader with
  | Some l => Some l
  | None => listener_of rs2 reader
  end.
Proof.
  induction rs1 as [|[r l] rs1 IH]; cbn; [reflexivity|].
  now destruct (Nat.eqb r reader).
Qed.

Lemma listener_of_finished_eq rs reader :
  listener_of (finished rs reader) reader = None.
Proof.
  unfold finished. induction rs as [|[r l] rs IH]; cbn; [reflexivity|].
  destruct (Nat.eqb r reader) eqn:E; cbn; [assumption|]. now rewrite E.
Qed.

Lemma listener_of_finished_ne rs reader r' :
  reader <> r' -> listener_of (finished rs reader) r' = listener_of rs r'.
Proof.
  intros Hne. unfold finished.
  induction rs as [|[r l] rs IH]; cbn; [reflexivity|].
  destruct (Nat.eqb r reader) eqn:E; cbn.
  - apply Nat.eqb_eq in E. subst r.
    apply Nat.eqb_neq in Hne. now rewrite Hne.
  - now rewrite IH.
Qed.

(** Where the selection made with reader [r] stands in state [s]: not made
    yet, made without a file, reading, or completed. *)
Definition stage (s : State) (r : nat) : Prop :=
  match listener_of (reading s) r with
  | Some l =>
      r < readers s /\
      nth_error (files (listener_event l)) 0 = Some (listener_file l) /\
      ops_of r (trace s) = [setUploading true; readAsDataURL (listener_file l)]
  | None =>
      if Nat.ltb r (readers s) then
        ops_of r (trace s) = [setUploading true] \/
        exists file e result,
          nth_error (files e) 0 = Some file /\
          ops_of r (trace s) = completed file e result
      else ops_of r (trace s) = []
  end.

Lemma stage_fresh s :
  (forall r, stage s r) ->
  listener_of (reading s) (readers s) = None /\
  ops_of (readers s) (trace s) = [].
Proof.
  intros Hs. specialize (Hs (readers s)). unfold stage in Hs.
  destruct (listener_of (reading s) (readers s)) as [l|].
  - destruct Hs as [Hlt _]. lia.
  - now rewrite Nat.ltb_irrefl in Hs.
Qed.

Lemma ops_of_other reader r op :
  reader <> r -> ops_of r [(reader, op)] = [].
Proof.
  intros Hne. unfold ops_of. cbn. apply Nat.eqb_neq in Hne. now rewrite Hne.
Qed.

Lemma stage_handleFile s e :
  (forall r, stage s r) -> forall r, stage (handleFile s e) r.
Proof.
  intros Hs r. destruct (stage_fresh s Hs) as [Hnone Hnil].
  pose proof (Hs r) as Hr. unfold stage in *. unfold handleFile.
  destruct (nth_error (files e) 0) as [file|] eqn:Hfile; cbn [reading readers trace].
  - rewrite listener_of_app, ops_of_app. cbn [listener_of].
    destruct (Nat.eq_dec (readers s) r) as [<-|Hne].
    + rewrite Hnone, Nat.eqb_refl, Hnil. cbn.
      unfold ops_of. cbn. rewrite Nat.eqb_refl. cbn. repeat split; auto.
    + assert (ops_of r [(readers s, setUploading true);
                        (readers s, readAsDataURL file)] = []) as ->.
      { unfold ops_of. cbn. apply Nat.eqb_neq in Hne. now rewrite Hne. }
      rewrite app_nil_r.
      destruct (listener_of (reading s) r) as [l|].
      * destruct Hr as [Hlt Hrest]. split; [lia|exact Hrest].
      * assert (Nat.eqb (readers s) r = false) as -> by now apply Nat.eqb_neq.
        destruct (Nat.ltb r (readers s)) eqn:Hlt.
        -- apply Nat.ltb_lt in Hlt.
           assert (Nat.ltb r (S (readers s)) = true) as ->
             by (apply Nat.ltb_lt; lia).
           exact Hr.
        -- apply Nat.ltb_ge in Hlt.
           assert (Nat.ltb r (S (readers s)) = false) as ->
             by (apply Nat.ltb_ge; lia).
           exact Hr.
  - rewrite ops_of_app.
    destruct (Nat.eq_dec (readers s) r) as [<-|Hne].
    + rewrite Hnone, Hnil.
      assert (Nat.ltb (readers s) (S (readers s)) = true) as ->
        by (apply Nat.ltb_lt; lia).
      left. unfold ops_of. cbn. now rewrite Nat.eqb_refl.
    + rewrite (ops_of_other _ _ _ Hne), app_nil_r.
      destruct (listener_of (reading s) r) as [l|].
      * destruct Hr as [Hlt Hrest]. split; [lia|exact Hrest].
      * destruct (Nat.ltb r (readers s)) eqn:Hlt.
        -- apply Nat.ltb_lt in Hlt.
           assert (Nat.ltb r (S (readers s)) = true) as ->
             by (apply Nat.ltb_lt; lia).
           exact Hr.
        -- apply Nat.ltb_ge in Hlt.
           assert (Nat.ltb r (S (readers s)) = false) as ->
             by (apply Nat.ltb_ge; lia).
           exact Hr.
Qed.

Lemma stage_handleLoad s reader result :
  (forall r, stage s r) -> forall r, stage (handleLoad s reader result) r.
Proof.
  intros Hs r. pose proof (Hs r) as Hr. pose proof (Hs reader) as Hreader.
  unfold handleLoad.
  destruct (listener_of (reading s) reader) as [l|] eqn:Hl; [|exact Hr].
  unfold stage in *. cbn [reading readers trace]. rewrite Hl in Hreader.
  destruct Hreader as [Hlt [Hfile Hops]]. rewrite ops_of_app.
  destruct (Nat.eq_dec reader r) as [<-|Hne].
  - rewrite listener_of_finished_eq.
    assert (Nat.ltb reader (readers s) = true) as -> by now apply Nat.ltb_lt.
    right. exists (listener_file l), (listener_event l), result.
    split; [exact Hfile|]. rewrite Hops. unfold ops_of. cbn.
    rewrite Nat.eqb_refl. reflexivity.
  - rewrite (listener_of_finished_ne _ _ _ Hne).
    assert (ops_of r
              [ (reader, load result);
                (reader,
                 onChange (name (listener_file l), payload result)
                   (listener_event l));
                (reader, setUploading false) ] = []) as ->.
    { unfold ops_of. cbn. apply Nat.eqb_neq in Hne. now rewrite Hne. }
    rewrite app_nil_r. exact Hr.
Qed.

Lemma run_snoc inputs i : run (inputs ++ [i]) = step (run inputs) i.
Proof. unfold run. now rewrite fold_left_app. Qed.

Lemma stage_run inputs : forall r, stage (run inputs) r.
Proof.
  induction inputs as [|i inputs IH] using rev_ind.
  - intros r. unfold stage. cbn. reflexivity.
  - rewrite run_snoc. destruct i as [e|reader result]; cbn [step].
    + now apply stage_handleFile.
    + now apply stage_handleLoad.
Qed.

Lemma reading_listener inputs reader file :
  ops_of reader (trace (run inputs)) = [setUploading true; readAsDataURL file] ->
  exists l,
    listener_of (reading (run inputs)) reader = Some l /\
    listener_file l = file /\
    nth_error (files (listener_event l)) 0 = Some file.
Proof.
  intros Hops. pose proof (stage_run inputs reader) as Hst. unfold stage in Hst.
  destruct (listener_of (reading (run inputs)) reader) as [l|].
  - destruct Hst as [_ [Hfile Hl]]. rewrite Hl in Hops. inversion Hops; subst.
    exists l. auto.
  - exfalso. destruct (Nat.ltb reader (readers (run inputs))).
    + destruct Hst as [Hst|[f [e [result [_ Hst]]]]];
        rewrite Hst in Hops; discriminate.
    + rewrite Hst in Hops. discriminate.
Qed.

(** C3.  In every run of the component, the operations of each selection
    (each reader) form an initial part of the sequence
    [setUploading(true)], [readAsDataURL(file)], the reader's [load],
    [onChange([file.name, payload], e)], [setUploading(false)], so
    [onChange] never comes before the read has completed.  A selection of a
    file sets [isUploading] and starts the read; the completion of that
    read calls [onChange] and then clears [isUploading].  The payload is
    the text after the first comma of a data URL
    [header,data] whose data has no comma (as base64 text has none). *)
Theorem file_selection_order (inputs : list Input) :
  (forall reader,
     ops_of reader (trace (run inputs)) = [] \/
     ops_of reader (trace (run inputs)) = [setUploading true] \/
     exists file e,
       nth_error (files e) 0 = Some file /\
       (ops_of reader (trace (run inputs)) =
          [setUploading true; readAsDataURL file] \/
        exists result,
          ops_of reader (trace (run inputs)) = completed file e result)) /\
  (forall e file,
     nth_error (files e) 0 = Some file ->
     isUploading (run (inputs ++ [change e])) = true /\
     ops_of (readers (run inputs)) (trace (run (inputs ++ [change e]))) =
       [setUploading true; readAsDataURL file]) /\
  (forall reader file result,
     ops_of reader (trace (run inputs)) =
       [setUploading true; readAsDataURL file] ->
     isUploading (run (inputs ++ [loaded reader result])) = false /\
     exists e,
       nth_error (files e) 0 = Some file /\
       ops_of reader (trace (run (inputs ++ [loaded reader result]))) =
         completed file e result) /\
  (forall header data,
     no_comma header = true -> no_comma data = true ->
     payload (header ++ "," ++ data) = Some data).
Proof.
  split; [|split; [|split]].
  - intros reader. pose proof (stage_run inputs reader) as Hst.
    unfold stage in Hst.
    destruct (listener_of (reading (run inputs)) reader) as [l|].
    + destruct Hst as [_ [Hfile Hops]]. right. right.
      exists (listener_file l), (listener_event l). auto.
    + destruct (Nat.ltb reader (readers (run inputs))); [|now left].
      destruct Hst as [Hst|[file [e [result [Hfile Hst]]]]]; [now right; left|].
      right. right. exists file, e. split; [assumption|]. right. now exists result.
  - intros e file Hfile. rewrite run_snoc. cbn [step]. unfold handleFile.
    rewrite Hfile. cbn [isUploading trace]. split; [reflexivity|].
    destruct (stage_fresh _ (stage_run inputs)) as [_ Hnil].
    rewrite ops_of_app, Hnil. unfold ops_of. cbn. now rewrite Nat.eqb_refl.
  - intros reader file result Hops.
    destruct (reading_listener _ _ _ Hops) as [l [Hl [Hf He]]].
    rewrite run_snoc. cbn [step]. unfold handleLoad. rewrite Hl.
    cbn [isUploading trace]. split; [reflexivity|].
    exists (listener_event l). split; [assumption|].
    rewrite ops_of_app, Hops, Hf. unfold ops_of. cbn.
    now rewrite Nat.eqb_refl.
  - apply payload_after_comma.
Qed.

(** *** A run with two overlapping selections *)

Definition notes_txt : File := {| name := "notes.txt"; size := 5 |}.
Definition logo_png : File := {| name := "logo.png"; size := 3 |}.

Example two_selections :
  trace
    (run [ change {| files := [notes_txt] |};
           change {| files := [logo_png] |};
           loaded 1 "data:image/png;base64,iVBO";
           loaded 0 "data:text/plain;base64,aGVsbG8=" ]) =
  [ (0, setUploading true); (0, readAsDataURL notes_txt);
    (1, setUploading true); (1, readAsDataURL logo_png);
    (1, load "data:image/png;base64,iVBO");
    (1, onChange ("logo.png", Some "iVBO") {| files := [logo_png] |});
    (1, setUploading false);
    (0, load "data:text/plain;base64,aGVsbG8=");
    (0, onChange ("notes.txt", Some "aGVsbG8=") {| files := [notes_txt] |});
    (0, setUploading false) ].
Proof. vm_compute. reflexivity. Qed.

(** The theorem on a selection of [notes.txt] and the end of its read. *)
Lemma file_selection_order_sample :
  nth_error (files {| files := [notes_txt] |}) 0 = Some notes_txt /\
  isUploading (run ([] ++ [change {| files := [notes_txt] |}])) = true /\
  ops_of (readers (run []))
    (trace (run ([] ++ [change {| files := [notes_txt] |}]))) =
    [setUploading true; readAsDataURL notes_txt] /\
  payload ("data:text/plain;base64" ++ "," ++ "aGVsbG8=") = Some "aGVsbG8=".
Proof.
  split; [reflexivity|].
  pose proof (file_selection_order []) as [_ [Hsel [_ Hpay]]].
  destruct (Hsel {| files := [notes_txt] |} notes_txt eq_refl) as [Hup Hops].
  split; [exact Hup|]. split; [exact Hops|].
  apply Hpay; reflexivity.
Defined.

(** *** Counting the calls *)

Definition is_onChange (op : Op) : bool :=
  match op with onChange _ _ => true | _ => false end.

Definition is_load (op : Op) : bool :=
  match op with load _ => true | _ => false end.

Definition is_setUploading (b : bool) (op : Op) : bool :=
  match op with setUploading b' => Bool.eqb b b' | _ => false end.

Definition is_change (i : Input) : bool :=
  match i with change _ => true | loaded _ _ => false end.

(** How many operations of a trace satisfy [p]. *)
Definition count (p : Op -> bool) (t : list (nat * Op)) : nat :=
  List.length (List.filter p (List.map snd t)).

Lemma count_app p t1 t2 : count p (t1 ++ t2) = count p t1 + count p t2.
Proof.
  unfold count. now rewrite List.map_app, List.filter_app, length_app.
Qed.

Lemma ops_of_shape inputs reader :
  ops_of reader (trace (run inputs)) = [] \/
  ops_of reader (trace (run inputs)) = [setUploading true] \/
  (exists file,
     ops_of reader (trace (run inputs)) =
       [setUploading true; readAsDataURL file]) \/
  (exists file e result,
     ops_of reader (trace (run inputs)) = completed file e result).
Proof.
  pose proof (stage_run inputs reader) as Hst. unfold stage in Hst.
  destruct (listener_of (reading (run inputs)) reader) as [l|].
  - destruct Hst as [_ [_ Hops]]. right. right. left. eauto.
  - destruct (Nat.ltb reader (readers (run inputs))); [|now left].
    destruct Hst as [Hst|[file [e [result [_ Hst]]]]]; [now right; left|].
    right. right. right. eauto.
Qed.

(** [onChange] is called once for each read that completed and never
    otherwise: in every run the trace has as many calls of [onChange] as
    [load] events and as calls of [setUploading(false)], as many calls of
    [setUploading(true)] as there were change events, and at most one call
    of [onChange] for each selection. *)
Theorem onChange_once_per_completed_read (inputs : list Input) :
  count is_onChange (trace (run inputs)) = count is_load (trace (run inputs)) /\
  count is_onChange (trace (run inputs)) =
    count (is_setUploading false) (trace (run inputs)) /\
  count (is_setUploading true) (trace (run inputs)) =
    List.length (List.filter is_change inputs) /\
  forall reader,
    List.length
      (List.filter is_onChange (ops_of reader (trace (run inputs)))) <= 1.
Proof.
  split; [|split; [|split]].
  - induction inputs as [|i inputs IH] using rev_ind; [reflexivity|].
    rewrite run_snoc. destruct i as [e|reader result]; cbn [step].
    + unfold handleFile. destruct (nth_error (files e) 0);
        cbn [trace]; rewrite !count_app, IH; reflexivity.
    + unfold handleLoad.
      destruct (listener_of (reading (run inputs)) reader); [|exact IH].
      cbn [trace]. rewrite !count_app, IH. reflexivity.
  - induction inputs as [|i inputs IH] using rev_ind; [reflexivity|].
    rewrite run_snoc. destruct i as [e|reader result]; cbn [step].
    + unfold handleFile. destruct (nth_error (files e) 0);
        cbn [trace]; rewrite !count_app, IH; reflexivity.
    + unfold handleLoad.
      destruct (listener_of (reading (run inputs)) reader); [|exact IH].
      cbn [trace]. rewrite !count_app, IH. reflexivity.
  - induction inputs as [|i inputs IH] using rev_ind; [reflexivity|].
    rewrite run_snoc, List.filter_app, length_app.
    destruct i as [e|reader result]; cbn [step].
    + unfold handleFile. destruct (nth_error (files e) 0);
        cbn [trace]; rewrite !count_app, IH; reflexivity.
    + unfold handleLoad. cbn [List.filter is_change List.length].
      rewrite Nat.add_0_r.
      destruct (listener_of (reading (run inputs)) reader); [|exact IH].
      cbn [trace]. rewrite !count_app, IH. cbn. lia.
  - intros reader.
    destruct (ops_of_shape inputs reader)
      as [->|[->|[[file ->]|[file [e [result ->]]]]]]; cbn; lia.
Qed.

(** *** Reads in flight *)

(** [isUploading] is one boolean for all reads: when two reads are in
    progress and one of them completes, [isUploading] is cleared although
    the other read is still in progress; its own completion will still call
    [onChange]. *)
Theorem isUploading_cleared_while_reading
  (inputs : list Input) (reader other : nat) (l l' : Listener)
  (result : string) :
  reader <> other ->
  listener_of (reading (run inputs)) reader = Some l ->
  listener_of (reading (run inputs)) other = Some l' ->
  isUploading (run (inputs ++ [loaded reader result])) = false /\
  listener_of (reading (run (inputs ++ [loaded reader result]))) other =
    Some l' /\
  forall result',
    ops_of other
      (trace (run (inputs ++ [loaded reader result; loaded other result']))) =
    completed (listener_file l') (listener_event l') result'.
Proof.
  intros Hne Hl Hl'.
  assert (listener_of (reading (run (inputs ++ [loaded reader result]))) other =
          Some l') as Hstill.
  { rewrite run_snoc. cbn [step]. unfold handleLoad. rewrite Hl.
    cbn [reading]. now rewrite (listener_of_finished_ne _ _ _ Hne). }
  split; [|split; [exact Hstill|]].
  - rewrite run_snoc. cbn [step]. unfold handleLoad. now rewrite Hl.
  - intros result'.
    replace (inputs ++ [loaded reader result; loaded other result'])
      with ((inputs ++ [loaded reader result]) ++ [loaded other result'])
      by now rewrite <- app_assoc.
    pose proof (stage_run (inputs ++ [loaded reader result]) other) as Hst.
    unfold stage in Hst. rewrite Hstill in Hst. destruct Hst as [_ [_ Hops]].
    rewrite run_snoc. cbn [step]. unfold handleLoad. rewrite Hstill.
    cbn [trace]. rewrite ops_of_app, Hops. unfold ops_of. cbn.
    now rewrite Nat.eqb_refl.
Qed.

(** Two selections, the second of which completes first. *)
Lemma isUploading_cleared_while_reading_sample :
  isUploading
    (run ([ change {| files := [notes_txt] |};
            change {| files := [logo_png] |} ]
          ++ [loaded 1 "data:image/png;base64,iVBO"])) = false /\
  listener_of
    (reading
       (run ([ change {| files := [notes_txt] |};
               change {| files := [logo_png] |} ]
             ++ [loaded 1 "data:image/png;base64,iVBO"]))) 0 =
  Some {| listener_file := notes_txt;
          listener_event := {| files := [notes_txt] |} |}.
Proof.
  pose proof (isUploading_cleared_while_reading
                [ change {| files := [notes_txt] |};
                  change {| files := [logo_png] |} ]
                1 0
                {| listener_file := logo_png;
                   listener_event := {| files := [logo_png] |} |}
                {| listener_file := notes_txt;
                   listener_event := {| files := [notes_txt] |} |}
                "data:image/png;base64,iVBO"
                ltac:(discriminate) eq_refl eq_refl) as [Hup [Hstill _]].
  split; [exact Hup|exact Hstill].
Defined.

(** *** The payload in full *)

Lemma split_nonempty sep s : split sep s <> [].
Proof.
  destruct s as [|c s]; cbn; [discriminate|].
  destruct (Ascii.eqb c sep); [discriminate|].
  destruct (split sep s); discriminate.
Qed.

Lemma first_comma s :
  no_comma s = false ->
  exists header rest,
    s = (header ++ String "," rest)%string /\ no_comma header = true.
Proof.
  induction s as [|c s IH]; cbn [no_comma]; [discriminate|].
  destruct (Ascii.eqb c ",") eqn:Hc; cbn [negb andb].
  - intros _. apply Ascii.eqb_eq in Hc. subst c. exists ""%string, s. auto.
  - intros Hs. destruct (IH Hs) as [header [rest [-> Hh]]].
    exists (String c header), rest. split; [reflexivity|].
    cbn [no_comma]. now rewrite Hc, Hh.
Qed.

Lemma split_head_no_comma s piece pieces :
  split "," s = piece :: pieces -> no_comma piece = true.
Proof.
  revert piece pieces. induction s as [|c s IH]; intros piece pieces; cbn [split].
  - intros H. now inversion H.
  - destruct (Ascii.eqb c ",") eqn:Hc.
    + intros H. now inversion H.
    + destruct (split "," s) as [|p ps] eqn:Hs.
      * intros H. inversion H. cbn. now rewrite Hc.
      * intros H. inversion H. cbn. rewrite Hc. cbn. now apply (IH p ps).
Qed.

(** The second element of [result.split(',')] is [undefined] exactly when
    [result] has no comma.  Otherwise it is the text between the first
    comma and the second one, or the end: it has no comma itself, and what
    follows a second comma is left out. *)
Theorem payload_cases (result : string) :
  (payload result = None <-> no_comma result = true) /\
  (forall data,
     payload result = Some data ->
     no_comma data = true /\
     exists header,
       no_comma header = true /\
       (result = (header ++ "," ++ data)%string \/
        exists rest, result = (header ++ "," ++ data ++ "," ++ rest)%string)).
Proof.
  unfold payload. destruct (no_comma result) eqn:Hres.
  - rewrite (split_no_comma _ Hres). cbn. split; [tauto|]. discriminate.
  - destruct (first_comma _ Hres) as [header [rest [-> Hh]]].
    change (header ++ String "," rest)%string
      with (header ++ "," ++ rest)%string.
    rewrite (split_first_comma _ _ Hh). cbn [nth_error].
    destruct (split "," rest) as [|piece pieces] eqn:Hs;
      [now apply split_nonempty in Hs|].
    split; [split; discriminate|].
    intros data Hdata. inversion Hdata; subst piece.
    split; [now apply (split_head_no_comma rest data pieces)|].
    exists header. split; [exact Hh|].
    destruct (no_comma rest) eqn:Hrest.
    + left. rewrite (split_no_comma _ Hrest) in Hs. now inversion Hs.
    + right. destruct (first_comma _ Hrest) as [d [rest' [-> Hd]]].
      change (d ++ String "," rest')%string
        with (d ++ "," ++ rest')%string in Hs.
      rewrite (split_first_comma _ _ Hd) in Hs. inversion Hs; subst.
      exists rest'. reflexivity.
Qed.

(** *** A change event without a file *)

Lemma run_app inputs more : run (inputs ++ more) = fold_left step more (run inputs).
Proof. unfold run. apply fold_left_app. Qed.

Lemma loads_without_reading loads : forall s,
  reading s = [] ->
  Forall (fun i => is_change i = false) loads ->
  fold_left step loads s = s.
Proof.
  induction loads as [|i loads IH]; intros s Hs Hloads; [reflexivity|].
  inversion Hloads as [|? ? Hi Hrest]; subst. cbn [fold_left].
  destruct i as [e|reader result]; [discriminate|]. cbn [step].
  unfold handleLoad. rewrite Hs. cbn [listener_of]. now apply IH.
Qed.

(** When the change event carries no file ([e.target.files] is empty, as
    after a cancelled dialog), [handleFile] sets [isUploading] and starts no
    read.  With no other read in progress, no [load] event follows that
    could clear it: [isUploading] stays [true] and [onChange] is not
    called. *)
Theorem empty_selection_keeps_isUploading
  (inputs loads : list Input) (e : ChangeEvent) :
  files e = [] ->
  reading (run inputs) = [] ->
  Forall (fun i => is_change i = false) loads ->
  isUploading (run (inputs ++ change e :: loads)) = true /\
  reading (run (inputs ++ change e :: loads)) = [] /\
  count is_onChange (trace (run (inputs ++ change e :: loads))) =
    count is_onChange (trace (run inputs)).
Proof.
  intros He Hreading Hloads.
  replace (inputs ++ change e :: loads) with ((inputs ++ [change e]) ++ loads)
    by now rewrite <- app_assoc.
  rewrite run_app, loads_without_reading; [| |exact Hloads];
    rewrite run_snoc; cbn [step]; unfold handleFile; rewrite He; cbn;
    [|exact Hreading].
  repeat split; [exact Hreading|].
  fold (count is_onChange
          (trace (run inputs) ++ [(readers (run inputs), setUploading true)])).
  rewrite count_app. cbn. lia.
Qed.

(** A cancelled dialog at mount, followed by stray [load] events. *)
Lemma empty_selection_keeps_isUploading_sample :
  isUploading
    (run ([] ++ change {| files := [] |} :: [loaded 0 "data:,"; loaded 1 ""]))
  = true.
Proof.
  apply (empty_selection_keeps_isUploading [] [loaded 0 "data:,"; loaded 1 ""]
           {| files := [] |} eq_refl eq_refl).
  repeat constructor.
Defined.

End FileField.

(** ** Components as functions of props and of the state they read *)

Module Components.

(** What moment reads besides its input: the clock (for [moment()] and
    [moment(undefined)], which stand for the present time), the default
    time zone and the locale. *)
Record MomentEnv := {
  clock : string;
  zone : string;
  locale : string
}.

(** A function component: what it renders from its props and from the
    state it reads besides them (the state it keeps between renders with a
    hook, or the state of a library it calls). *)
Record Component := {
  Props : Type;
  LocalState : Type;
  render : Props -> LocalState -> option Element
}.

(** Two renders with equal props give the same output, whatever that
    state. *)
Definition output_determined_by_props (C : Component) : Prop :=
  forall (props : Props C) (s1 s2 : LocalState C),
    render C props s1 = render C props s2.

(** [Timeline] calls no hook; it formats with moment, in the environment in
    which it renders. *)
Definition TimelineC
  (moment : MomentEnv -> option string -> string -> string) : Component :=
  {| Props := Timeline.Props;
     LocalState := MomentEnv;
     render := fun props env => Timeline.Timeline (moment env) 6 props |}.

(** [FileField] keeps [isUploading] with [useState]. *)
Definition FileFieldC : Component :=
  {| Props := FileField.Props;
     LocalState := bool;
     render := fun props isUploading =>
                 Some (FileField.FileField props isUploading) |}.

(** The value of the last [setUploading] call of a trace ([false], the
    initial state, when there is none). *)
Definition last_setUploading (t : list (nat * FileField.Op)) : bool :=
  fold_left
    (fun b entry =>
       match snd entry with
       | FileField.setUploading b' => b'
       | _ => b
       end)
    t false.

(** Every notable crumb and the active crumb carry a timestamp. *)
Definition timestamps_present (props : Timeline.Props) : Prop :=
  (forall c, In c (Timeline.breadcrumbs props) -> Timeline.notable c ->
             exists s, Timeline.crumb_timestamp c = Some s) /\
  (forall a, Timeline.activeCrumb props = Some a ->
             exists s, Timeline.crumb_timestamp a = Some s).

(** A stand-in for moment in the examples: the date and time up to the
    seconds of the input, or of the clock when there is no input. *)
Definition sample_moment (env : MomentEnv) (input : option string)
  (pattern : string) : string :=
  match input with
  | Some s => Timeline.iso_seconds (Some s) pattern
  | None => Timeline.iso_seconds (Some (clock env)) pattern
  end.

Definition upload_props : FileField.Props :=
  {| FileField.accept := Some ["image/png"; "text/plain"];
     FileField.rest := [("name", "avatar"); ("label", "Avatar")] |}.

Definition noon : MomentEnv :=
  {| clock := "2022-10-05T12:00:00.000Z"; zone := "UTC"; locale := "en" |}.

Definition one_o_clock : MomentEnv :=
  {| clock := "2022-10-05T13:00:00.000Z"; zone := "UTC"; locale := "en" |}.

Definition sample_props : Timeline.Props :=
  {| Timeline.breadcrumbs := Timeline.sample_breadcrumbs;
     Timeline.activeCrumb := Some Timeline.navigation_crumb |}.

Lemma FileField_render_injective props (s1 s2 : bool) :
  FileField.FileField props s1 = FileField.FileField props s2 <-> s1 = s2.
Proof.
  split; [|now intros ->].
  unfold FileField.FileField, FileField.field.
  destruct s1, s2; intros H; try reflexivity; inversion H.
Qed.


(** *** The state of [FileField] and its history *)

Lemma last_setUploading_app t1 t2 :
  last_setUploading (t1 ++ t2) =
  fold_left
    (fun b entry =>
       match snd entry with
       | FileField.setUploading b' => b'
       | _ => b
       end)
    t2 (last_setUploading t1).
Proof. unfold last_setUploading. apply fold_left_app. Qed.

Lemma isUploading_last_setUploading inputs :
  FileField.isUploading (FileField.run inputs) =
  last_setUploading (FileField.trace (FileField.run inputs)).
Proof.
  induction inputs as [|i inputs IH] using rev_ind; [reflexivity|].
  rewrite FileField.run_snoc. destruct i as [e|reader result]; cbn [FileField.step].
  - unfold FileField.handleFile.
    destruct (nth_error (FileField.files e) 0);
      cbn [FileField.isUploading FileField.trace];
      now rewrite last_setUploading_app.
  - unfold FileField.handleLoad.
    destruct (FileField.listener_of
                (FileField.reading (FileField.run inputs)) reader);
      [|exact IH].
    cbn [FileField.isUploading FileField.trace].
    now rewrite last_setUploading_app.
Qed.

(** *** What [Timeline] asks of moment *)

Section Formatters.

Variables mf1 mf2 : option string -> string -> string.

(** The two formatters agree on every input that is present. *)
Hypothesis agree : forall s pattern, mf1 (Some s) pattern = mf2 (Some s) pattern.

Lemma record_crumb_agree m c s :
  Timeline.crumb_timestamp c = Some s ->
  Timeline.record_crumb mf1 m c = Timeline.record_crumb mf2 m c.
Proof using agree.
  intros Hc. unfold Timeline.record_crumb, Timeline.crumb_key.
  now rewrite Hc, agree.
Qed.

Lemma build_mapping_agree l :
  (forall c, In c l -> exists s, Timeline.crumb_timestamp c = Some s) ->
  Timeline.build_mapping mf1 l = Timeline.build_mapping mf2 l.
Proof using agree.
  unfold Timeline.build_mapping. generalize (@nil (string * list Timeline.Crumb)).
  induction l as [|c l IH]; intros m Hl; [reflexivity|]. cbn [fold_left].
  destruct (Hl c (or_introl eq_refl)) as [s Hs].
  rewrite (record_crumb_agree m c s Hs).
  apply IH. intros c' Hc'. apply Hl. now right.
Qed.

Lemma extractHighlights_agree props :
  timestamps_present props ->
  Timeline.extractHighlights mf1 (Timeline.breadcrumbs props)
    (Timeline.activeCrumb props) =
  Timeline.extractHighlights mf2 (Timeline.breadcrumbs props)
    (Timeline.activeCrumb props).
Proof using agree.
  intros [Hcrumbs Hactive]. unfold Timeline.extractHighlights.
  rewrite build_mapping_agree.
  - destruct (Timeline.activeCrumb props) as [a|]; [|reflexivity].
    destruct (Hactive a eq_refl) as [s Hs]. now rewrite Hs, agree.
  - intros c Hc. apply filter_In in Hc. destruct Hc as [Hin Hrel].
    apply Hcrumbs; [exact Hin|]. now apply Timeline.is_relevant_notable.
Qed.

Lemma render_items_agree fuel groups : forall index,
  Timeline.render_items mf1 fuel index groups =
  Timeline.render_items mf2 fuel index groups.
Proof using agree.
  induction groups as [|g groups IH]; intros index; [reflexivity|].
  cbn [Timeline.render_items]. rewrite IH. unfold Timeline.CrumbItem.
  now rewrite agree.
Qed.

Lemma Timeline_agree fuel props :
  timestamps_present props ->
  Timeline.Timeline mf1 fuel props = Timeline.Timeline mf2 fuel props.
Proof using agree.
  intros Hprops. unfold Timeline.Timeline.
  now rewrite (extractHighlights_agree props Hprops), render_items_agree.
Qed.

End Formatters.

Section WithMoment.

Variable moment : MomentEnv -> option string -> string -> string.

(** Moment reads the clock only when it is given no input: for an input
    that is present, the text depends on the zone and the locale alone. *)
Hypothesis moment_of_input :
  forall env1 env2 s pattern,
    zone env1 = zone env2 -> locale env1 = locale env2 ->
    moment env1 (Some s) pattern = moment env2 (Some s) pattern.


End WithMoment.

Lemma sample_props_timestamps : timestamps_present sample_props.
Proof.
  split.
  - intros c Hin _. cbn in Hin.
    repeat (destruct Hin as [<-|Hin]; [eexists; reflexivity|]).
    destruct Hin.
  - intros a Ha. inversion Ha. eexists. reflexivity.
Qed.


(** With the stand-in for moment, a notable crumb without a timestamp is
    filed under the present time, so that the output follows the clock. *)
Example Timeline_follows_clock_without_timestamp :
  render (TimelineC sample_moment)
    {| Timeline.breadcrumbs :=
         [ {| Timeline.crumb_type := "ui";
              Timeline.crumb_category := Some "click";
              Timeline.crumb_timestamp := None;
              Timeline.crumb_color := "purple300";
              Timeline.crumb_id := 7 |} ];
       Timeline.activeCrumb := None |}
    noon <>
  render (TimelineC sample_moment)
    {| Timeline.breadcrumbs :=
         [ {| Timeline.crumb_type := "ui";
              Timeline.crumb_category := Some "click";
              Timeline.crumb_timestamp := None;
              Timeline.crumb_color := "purple300";
              Timeline.crumb_id := 7 |} ];
       Timeline.activeCrumb := None |}
    one_o_clock.
Proof. vm_compute. intros H. inversion H. Qed.

End Components.

(** ** components/forms/jsonForm, as its test suite describes it *)

Module JsonForm.

(** The outcome of evaluating JavaScript that may throw. *)
Inductive Result (A : Type) :=
| Return (a : A)
| Throw (message : string).

Arguments Return {A} a.
Arguments Throw {A} message.

#[local] Instance Result_ret : MRet Result := fun A a => Return a.
#[local] Instance Result_bind : MBind Result :=
  fun A B f r =>
    match r with
    | Return a => f a
    | Throw message => Throw message
    end.

(** The values found in the props that the [visible] callbacks read. *)
Inductive Value :=
| undefined
| str (s : string)
| object (properties : gmap string string).

(** The message of the [TypeError] for reading [property] of
    [undefined]. *)
Definition cannot_read (property : string) : string :=
  "Cannot read properties of undefined (reading '" ++ property ++ "')".

(** [o.property], where [o] is the value of a destructured prop ([None]
    when the prop is absent). *)
Definition read_property (o : option Value) (property : string) : Result Value :=
  match o with
  | None | Some undefined => Throw (cannot_read property)
  | Some (str _) => Return undefined
  | Some (object properties) =>
      Return
        match properties !! property with
        | Some s => str s
        | None => undefined
        end
  end.

(** [!!v]. *)
Definition truthy (v : Value) : bool :=
  match v with
  | undefined => false
  | str s => truthy_string s
  | object _ => true
  end.

(** [a !== b] on values read from props (two objects are never the same
    here: each read makes its own). *)
Definition strict_ne (a b : Value) : bool :=
  match a, b with
  | undefined, undefined => false
  | str s, str t => negb (String.eqb s t)
  | _, _ => true
  end.

(** The [visible] property of a field descriptor: a boolean, or a function
    of the props. *)
Inductive Visible :=
| visible_bool (b : bool)
| visible_func (f : gmap string Value -> Result bool).

Record FieldObject := {
  name : string;
  visible : option Visible
}.

Record FormGroup := {
  title : string;
  fields : list FieldObject
}.

(** The props of [JsonForm] that the tests pass: [forms] or [fields], the
    optional [additionalFieldProps], whether [renderHeader] and
    [renderFooter] are given, and the remaining props. *)
Record JsonFormProps := {
  forms_prop : option (list FormGroup);
  fields_prop : option (list FieldObject);
  additionalFieldProps : option (gmap string Value);
  renderHeader : bool;
  renderFooter : bool;
  other_props : gmap string Value
}.

(** A rendered [FormPanel]: its title, the fields that got an input, and
    whether a header and a footer were rendered. *)
Record FormPanel := {
  panel_title : string;
  inputs : list string;
  header : bool;
  footer : bool
}.

(** The props handed to a [visible] function:
    [{...props, ...additionalFieldProps}]. *)
Definition field_props (p : JsonFormProps) : gmap string Value :=
  match additionalFieldProps p with
  | Some additional => additional ∪ other_props p
  | None => other_props p
  end.

(** Modelled from the spec: the visibility of a field, which the component
    (not among the sources) decides.  By the tests a field without a
    [visible] property is shown, a boolean is taken as it is, and a
    function is called with the props; what it throws is not caught. *)
Definition field_visible (props : gmap string Value) (f : FieldObject)
  : Result bool :=
  match visible f with
  | None => Return true
  | Some (visible_bool b) => Return b
  | Some (visible_func g) => g props
  end.

(** The fields of a panel that are visible, in order. *)
Fixpoint visible_fields (props : gmap string Value) (fs : list FieldObject)
  : Result (list FieldObject) :=
  match fs with
  | [] => mret []
  | f :: fs' =>
      v ← field_visible props f;
      shown ← visible_fields props fs';
      mret (if v : bool then f :: shown else shown)
  end.

(** Modelled from the spec: the rendering of one group of fields.  By the
    tests the panel is left out when no field is visible and neither
    [renderHeader] nor [renderFooter] is given, and is rendered otherwise,
    with one input per visible field. *)
Definition renderForm (p : JsonFormProps) (group : FormGroup)
  : Result (option FormPanel) :=
  shown ← visible_fields (field_props p) (fields group);
  mret
    (match shown with
     | [] =>
         if negb (renderHeader p) && negb (renderFooter p) then None
         else Some {| panel_title := title group; inputs := [];
                      header := renderHeader p; footer := renderFooter p |}
     | _ =>
         Some {| panel_title := title group;
                 inputs := List.map name shown;
                 header := renderHeader p; footer := renderFooter p |}
     end).

(** The groups that [JsonForm] renders: those of [forms], or else one group
    for [fields]. *)
Definition groups_of (p : JsonFormProps) : list FormGroup :=
  match forms_prop p, fields_prop p with
  | Some groups, _ => groups
  | None, Some fs => [{| title := ""; fields := fs |}]
  | None, None => []
  end.

Fixpoint render_groups (p : JsonFormProps) (groups : list FormGroup)
  : Result (list FormPanel) :=
  match groups with
  | [] => mret []
  | group :: groups' =>
      panel ← renderForm p group;
      panels ← render_groups p groups';
      mret (match panel with
            | Some pn => pn :: panels
            | None => panels
            end)
  end.

(** The [FormPanel]s found after mounting [<JsonForm {...p} />], or the
    error thrown while rendering. *)
Definition JsonForm (p : JsonFormProps) : Result (list FormPanel) :=
  render_groups p (groups_of p).

(** Every field descriptor of the form. *)
Definition all_fields (p : JsonFormProps) : list FieldObject :=
  List.concat (List.map fields (groups_of p)).

(** A [visible] function that first reads [object.property] from its props
    and goes on with the value: [({object}) => ... object.property ...]. *)
Definition dereferencing (object_name property : string)
  (k : gmap string Value -> Value -> Result bool)
  : gmap string Value -> Result bool :=
  fun props => v ← read_property (props !! object_name) property; k props v.


(** *** The data of the tests *)

(** [TestStubs.User({})]: the test suite notes that its username and email
    are both 'foo@example.com'. *)
Definition user : Value :=
  object
    (<["email" := "foo@example.com"]>
       (<["username" := "foo@example.com"]> (<["name" := "Foo Bar"]> ∅))).

(** Modelled from the spec: sentry/data/forms/accountDetails, which is not
    among the sources.  The test suite says it has two fields, the first
    without a [visible] property and the second visible when the user's
    email differs from the username. *)
Definition accountDetailsFields : list FormGroup :=
  [ {| title := "Account Details";
       fields :=
         [ {| name := "name"; visible := None |};
           {| name := "username";
              visible :=
                Some (visible_func
                        (dereferencing "user" "email"
                           (fun props email =>
                              username ←
                                read_property (props !! "user") "username";
                              mret (strict_ne email username)))) |} ] |} ].

(** Modelled from the spec: [fields.name] and [fields.platform] of
    sentry/data/forms/projectGeneralSettings, which have no [visible]
    property according to the test suite. *)
Definition jsonFormFields : list FieldObject :=
  [ {| name := "name"; visible := None |};
    {| name := "platform"; visible := None |} ].

Definition with_visible (v : Visible) (f : FieldObject) : FieldObject :=
  {| name := name f; visible := Some v |}.

Definition with_fields_visible (v : Visible) (g : FormGroup) : FormGroup :=
  {| title := title g; fields := List.map (with_visible v) (fields g) |}.

(** [<JsonForm forms={forms} additionalFieldProps={{user}} />], with or
    without [renderHeader]. *)
Definition forms_with_user (forms : list FormGroup) (withHeader withFooter : bool)
  : JsonFormProps :=
  {| forms_prop := Some forms;
     fields_prop := None;
     additionalFieldProps := Some (<["user" := user]> ∅);
     renderHeader := withHeader;
     renderFooter := withFooter;
     other_props := ∅ |}.

(** [<JsonForm forms={forms} />] and [<JsonForm fields={fields} />]. *)
Definition forms_only (forms : list FormGroup) : JsonFormProps :=
  {| forms_prop := Some forms;
     fields_prop := None;
     additionalFieldProps := None;
     renderHeader := false;
     renderFooter := false;
     other_props := ∅ |}.

Definition fields_only (fs : list FieldObject) : JsonFormProps :=
  {| forms_prop := None;
     fields_prop := Some fs;
     additionalFieldProps := None;
     renderHeader := false;
     renderFooter := false;
     other_props := ∅ |}.

(** [({test}) => !!test.email]. *)
Definition test_email : gmap string Value -> Result bool :=
  dereferencing "test" "email" (fun _ v => mret (truthy v)).

(** *** The cases of the test suite *)

Definition account_panel (names : list string) (withHeader withFooter : bool)
  : FormPanel :=
  {| panel_title := "Account Details"; inputs := names;
     header := withHeader; footer := withFooter |}.

Example shows_panel_with_one_input :
  JsonForm (forms_with_user accountDetailsFields false false) =
  Return [account_panel ["name"] false false].
Proof. vm_compute. reflexivity. Qed.

Example hides_panel_visible_boolean :
  JsonForm
    (forms_with_user
       (List.map (with_fields_visible (visible_bool false)) accountDetailsFields)
       false false) =
  Return [].
Proof. vm_compute. reflexivity. Qed.

Example hides_panel_visible_function :
  JsonForm
    (forms_with_user
       (List.map (with_fields_visible (visible_func (fun _ => Return false)))
          accountDetailsFields)
       false false) =
  Return [].
Proof. vm_compute. reflexivity. Qed.

Example keeps_panel_with_renderFooter :
  JsonForm
    (forms_with_user
       (List.map (with_fields_visible (visible_bool false)) accountDetailsFields)
       false true) =
  Return [account_panel [] false true].
Proof. vm_compute. reflexivity. Qed.

Example shows_both_fields :
  JsonForm (fields_only jsonFormFields) =
  Return [ {| panel_title := ""; inputs := ["name"; "platform"];
              header := false; footer := false |} ].
Proof. vm_compute. reflexivity. Qed.

(** *** Panels without a visible field *)

Lemma visible_fields_all_hidden props fs :
  (forall f, In f fs -> field_visible props f = Return false) ->
  visible_fields props fs = Return [].
Proof.
  induction fs as [|f fs IH]; intros Hall; cbn [visible_fields]; [reflexivity|].
  rewrite (Hall f) by now left. cbn.
  rewrite IH by (intros g Hg; apply Hall; now right). reflexivity.
Qed.

Lemma render_groups_all_hidden p groups :
  (forall f, In f (List.concat (List.map fields groups)) ->
             field_visible (field_props p) f = Return false) ->
  render_groups p groups =
  Return
    (if negb (renderHeader p) && negb (renderFooter p) then []
     else List.map
            (fun g => {| panel_title := title g; inputs := [];
                         header := renderHeader p; footer := renderFooter p |})
            groups).
Proof.
  induction groups as [|g groups IH]; intros Hall; cbn [render_groups].
  - now destruct (negb (renderHeader p) && negb (renderFooter p)).
  - cbn [List.map List.concat] in Hall. unfold renderForm.
    rewrite visible_fields_all_hidden
      by (intros f Hf; apply Hall; apply in_or_app; now left).
    rewrite IH by (intros f Hf; apply Hall; apply in_or_app; now right).
    cbn. now destruct (negb (renderHeader p) && negb (renderFooter p)).
Qed.

(** C2, as stated, fails: with [renderHeader] the panel is rendered although
    every field has [visible] set to [false] (the test of the source, lines
    104 to 120). *)
Lemma JsonForm_renderHeader_keeps_panel :
  (forall f,
     In f (all_fields
             (forms_with_user
                (List.map (with_fields_visible (visible_bool false))
                   accountDetailsFields)
                true false)) ->
     field_visible
       (field_props
          (forms_with_user
             (List.map (with_fields_visible (visible_bool false))
                accountDetailsFields)
             true false))
       f = Return false) /\
  JsonForm
    (forms_with_user
       (List.map (with_fields_visible (visible_bool false)) accountDetailsFields)
       true false) =
  Return [account_panel [] true false].
Proof.
  split.
  - intros f [<-|[<-|[]]]; reflexivity.
  - vm_compute. reflexivity.
Qed.

(** C2, amended.  When every field descriptor of a [JsonForm] evaluates to
    [visible = false], by a boolean or by a function, no [FormPanel] is
    rendered provided neither [renderHeader] nor [renderFooter] is passed;
    when one of them is passed, each panel is rendered, without inputs. *)
Theorem JsonForm_hides_panel_without_header_footer (p : JsonFormProps) :
  (forall f, In f (all_fields p) ->
             field_visible (field_props p) f = Return false) ->
  (renderHeader p = false -> renderFooter p = false -> JsonForm p = Return []) /\
  (renderHeader p || renderFooter p = true ->
   JsonForm p =
   Return
     (List.map
        (fun g => {| panel_title := title g; inputs := [];
                     header := renderHeader p; footer := renderFooter p |})
        (groups_of p))).
Proof.
  intros Hall. unfold JsonForm. rewrite (render_groups_all_hidden p _ Hall).
  split.
  - intros -> ->. reflexivity.
  - intros Hor. destruct (renderHeader p), (renderFooter p);
      try discriminate; reflexivity.
Qed.

(** The amended claim on the account form with every field hidden. *)
Lemma JsonForm_hides_panel_sample :
  JsonForm
    (forms_with_user
       (List.map (with_fields_visible (visible_func (fun _ => Return false)))
          accountDetailsFields)
       false false) =
  Return [].
Proof.
  refine (proj1
            (JsonForm_hides_panel_without_header_footer
               (forms_with_user
                  (List.map
                     (with_fields_visible (visible_func (fun _ => Return false)))
                     accountDetailsFields)
                  false false) _) eq_refl eq_refl).
  intros f [<-|[<-|[]]]; reflexivity.
Defined.

(** *** A [visible] function that throws *)

Lemma dereferencing_absent object_name property k props :
  props !! object_name = None ->
  dereferencing object_name property k props = Throw (cannot_read property).
Proof. intros H. unfold dereferencing. now rewrite H. Qed.

Lemma visible_fields_throws props fs f message :
  In f fs -> field_visible props f = Throw message ->
  exists message', visible_fields props fs = Throw message'.
Proof.
  induction fs as [|g fs IH]; intros Hin Hf; [destruct Hin|].
  cbn [visible_fields]. destruct (field_visible props g) as [v|m] eqn:Hg.
  - destruct Hin as [->|Hin]; [congruence|].
    destruct (IH Hin Hf) as [m' ->]. now exists m'.
  - now exists m.
Qed.

Lemma visible_fields_thrown props fs message :
  visible_fields props fs = Throw message ->
  exists f, In f fs /\ field_visible props f = Throw message.
Proof.
  induction fs as [|g fs IH]; cbn [visible_fields]; [discriminate|].
  destruct (field_visible props g) as [v|m] eqn:Hg; cbn.
  - destruct (visible_fields props fs) as [shown|m'] eqn:Hfs; cbn; [discriminate|].
    intros Heq. inversion Heq; subst m'.
    destruct (IH eq_refl) as [f [Hin Hf]]. exists f. split; [now right|assumption].
  - intros Heq. inversion Heq; subst m. exists g. split; [now left|assumption].
Qed.

Lemma render_groups_throws p groups f message :
  In f (List.concat (List.map fields groups)) ->
  field_visible (field_props p) f = Throw message ->
  exists message', render_groups p groups = Throw message'.
Proof.
  induction groups as [|g groups IH]; intros Hin Hf; [destruct Hin|].
  cbn [List.map List.concat] in Hin. cbn [render_groups]. unfold renderForm.
  apply in_app_or in Hin. destruct Hin as [Hin|Hin].
  - destruct (visible_fields_throws _ _ _ _ Hin Hf) as [m' ->]. now exists m'.
  - destruct (visible_fields (field_props p) (fields g)) as [shown|m']; cbn;
      [|now exists m'].
    destruct (IH Hin Hf) as [m' ->]. now exists m'.
Qed.

Lemma render_groups_thrown p groups message :
  render_groups p groups = Throw message ->
  exists f, In f (List.concat (List.map fields groups)) /\
            field_visible (field_props p) f = Throw message.
Proof.
  induction groups as [|g groups IH]; cbn [render_groups]; [discriminate|].
  unfold renderForm. cbn [List.map List.concat].
  destruct (visible_fields (field_props p) (fields g)) as [shown|m'] eqn:Hg; cbn.
  - destruct (render_groups p groups) as [panels|m''] eqn:Hgs; cbn; [discriminate|].
    intros Heq. inversion Heq; subst m''.
    destruct (IH eq_refl) as [f [Hin Hf]]. exists f.
    split; [apply in_or_app; now right|assumption].
  - intros Heq. inversion Heq; subst m'.
    destruct (visible_fields_thrown _ _ _ Hg) as [f [Hin Hf]]. exists f.
    split; [apply in_or_app; now left|assumption].
Qed.

(** C4.  Take a [JsonForm] rendered without [additionalFieldProps] and a
    field of it whose [visible] function reads a property of an object that
    the remaining props do not have.  Rendering throws instead of returning
    panels; and when no field of the form throws anything else, what is
    thrown is the [TypeError] "Cannot read properties of undefined (reading
    'property')", as in the two tested forms (reading 'email'). *)
Theorem JsonForm_throws_without_additionalFieldProps
  (p : JsonFormProps) (f : FieldObject) (object_name property : string)
  (k : gmap string Value -> Value -> Result bool) :
  additionalFieldProps p = None ->
  other_props p !! object_name = None ->
  In f (all_fields p) ->
  visible f = Some (visible_func (dereferencing object_name property k)) ->
  (exists message, JsonForm p = Throw message) /\
  ((forall g message,
      In g (all_fields p) ->
      field_visible (field_props p) g = Throw message ->
      message = cannot_read property) ->
   JsonForm p = Throw (cannot_read property)).
Proof.
  intros Hnone Habsent Hin Hvis.
  assert (field_visible (field_props p) f = Throw (cannot_read property)) as Hf.
  { unfold field_visible, field_props. rewrite Hvis, Hnone.
    now apply dereferencing_absent. }
  destruct (render_groups_throws p (groups_of p) f _ Hin Hf) as [m Hm].
  split; [now exists m|].
  intros Honly. unfold JsonForm. rewrite Hm. f_equal.
  destruct (render_groups_thrown _ _ _ Hm) as [g [Hg Hthrow]].
  now apply (Honly g).
Qed.

Example throws_for_account_form :
  JsonForm (forms_only accountDetailsFields) =
  Throw "Cannot read properties of undefined (reading 'email')".
Proof. vm_compute. reflexivity. Qed.

(** The theorem on the tested form with the [fields] prop:
    [fields={[{...jsonFormFields[0], visible: ({test}) => !!test.email}]}]. *)
Lemma JsonForm_throws_sample :
  JsonForm
    (fields_only
       [with_visible (visible_func test_email)
          {| name := "name"; visible := None |}]) =
  Throw "Cannot read properties of undefined (reading 'email')".
Proof.
  refine (proj2
            (JsonForm_throws_without_additionalFieldProps
               (fields_only
                  [with_visible (visible_func test_email)
                     {| name := "name"; visible := None |}])
               (with_visible (visible_func test_email)
                  {| name := "name"; visible := None |})
               "test" "email" (fun _ v => mret (truthy v))
               eq_refl eq_refl (or_introl eq_refl) eq_refl) _).
  intros g message [<-|[]] Hthrow. vm_compute in Hthrow.
  inversion Hthrow. reflexivity.
Defined.

End JsonForm.

(** ** components/events/eventCustomPerformanceMetrics, as its test suite
    describes it *)

Module CustomMetrics.

(** A measurement of an event.  Values are taken as exact rationals. *)
Record Measurement := {
  unit : string;
  value : Q
}.

(** An event: the [measurements] object (absent on [{}]), as the list of
    its entries. *)
Record Event := {
  measurements : option (list (string * Measurement))
}.

(** The rendered panel: its heading and, per metric shown, the key and the
    text of the value. *)
Record Panel := {
  heading : string;
  rows : list (string * string)
}.

(** The entries of [event.measurements ?? {}]. *)
Definition entries_of (event : Event) : list (string * Measurement) :=
  match measurements event with
  | Some ms => ms
  | None => []
  end.

Section Component.

(** The names of the measurements that have a definition of their own (the
    web vitals such as [lcp], shown elsewhere under their title); the table
    is not among the sources. *)
Variable standard_measurements : list string.

(** The text of a value, which the component takes from formatters chosen
    by the unit of the measurement; the formatters are not among the
    sources. *)
Variable formatValue : Measurement -> string.

(** Modelled from the spec: a metric is custom when it is not one of the
    standard measurements. *)
Definition isCustomMeasurement (name : string) : bool :=
  negb (includes standard_measurements name).

(** Modelled from the spec: the component, which is not among the sources.
    It renders nothing when the event has no custom metric, and otherwise
    the panel 'Custom Performance Metrics' with a row per custom metric:
    its key and its value formatted by unit. *)
Definition EventCustomPerformanceMetrics (event : Event) : option Panel :=
  match
    List.filter (fun entry => isCustomMeasurement (fst entry)) (entries_of event)
  with
  | [] => None
  | custom =>
      Some
        {| heading := "Custom Performance Metrics";
           rows :=
             List.map (fun entry => (fst entry, formatValue (snd entry)))
               custom |}
  end.

End Component.

(** *** The events of the test suite *)

Definition empty_event : Event := {| measurements := None |}.

Definition lcp_only : Event :=
  {| measurements :=
       Some [("lcp", {| unit := "millisecond"; value := 10 |})] |}.

Definition custom_and_lcp : Event :=
  {| measurements :=
       Some [ ("custom.count", {| unit := "none"; value := 10 |});
              ("custom.duration", {| unit := "millisecond"; value := 123 |});
              ("custom.size", {| unit := "kibibyte"; value := 456 |});
              ("custom.percentage", {| unit := "ratio"; value := 3 # 10 |});
              ("lcp", {| unit := "millisecond"; value := 10 |}) ] |}.

(** *** When the panel is rendered, and what it shows *)

Section Panel.

Variable standard_measurements : list string.
Variable formatValue : Measurement -> string.

Lemma panel_rows event panel :
  EventCustomPerformanceMetrics standard_measurements formatValue event =
    Some panel ->
  heading panel = "Custom Performance Metrics" /\
  rows panel =
    List.map (fun entry => (fst entry, formatValue (snd entry)))
      (List.filter
         (fun entry => isCustomMeasurement standard_measurements (fst entry))
         (entries_of event)).
Proof.
  unfold EventCustomPerformanceMetrics.
  destruct (List.filter _ (entries_of event)) as [|entry shown];
    [discriminate|].
  intros H. inversion H. cbn. auto.
Qed.

Lemma isCustomMeasurement_spec k :
  isCustomMeasurement standard_measurements k = true <->
  ~ In k standard_measurements.
Proof.
  unfold isCustomMeasurement. rewrite negb_true_iff, <- includes_In.
  destruct (includes standard_measurements k); split; congruence.
Qed.

Lemma In_entries_of event k m :
  In (k, m) (entries_of event) <->
  exists ms, measurements event = Some ms /\ In (k, m) ms.
Proof.
  unfold entries_of. destruct (measurements event) as [ms|].
  - split; [eauto|]. intros [ms' [Heq Hin]]. now inversion Heq.
  - split; [intros []|]. intros [ms' [Heq _]]. discriminate.
Qed.

(** What the test suite says of the parts that are not among the sources:
    [lcp] is a standard measurement and the four metrics named [custom.*]
    are not; the formatters show a count of 10 as '10', 123 milliseconds as
    '123.00ms', 456 kibibytes as '456.0 KiB' and the ratio 0.3 as '30%'. *)
Hypothesis lcp_standard : In "lcp" standard_measurements.

Hypothesis custom_not_standard :
  forall k,
    In k ["custom.count"; "custom.duration"; "custom.size"; "custom.percentage"] ->
    ~ In k standard_measurements.

Hypothesis tested_formats :
  formatValue {| unit := "none"; value := 10 |} = "10" /\
  formatValue {| unit := "millisecond"; value := 123 |} = "123.00ms" /\
  formatValue {| unit := "kibibyte"; value := 456 |} = "456.0 KiB" /\
  formatValue {| unit := "ratio"; value := 3 # 10 |} = "30%".


End Panel.

(** *** The test suite, with stand-ins for the absent parts *)

(** A table of standard measurements for the examples. *)
Definition web_vitals : list string :=
  ["fp"; "fcp"; "lcp"; "fid"; "cls"; "ttfb"].

(** A formatter for the examples that knows the four renderings that the
    test suite asserts, and shows nothing elsewhere. *)
Definition tested_rendering (m : Measurement) : string :=
  if String.eqb (unit m) "none" && Qeq_bool (value m) 10 then "10"
  else if String.eqb (unit m) "millisecond" && Qeq_bool (value m) 123
  then "123.00ms"
  else if String.eqb (unit m) "kibibyte" && Qeq_bool (value m) 456
  then "456.0 KiB"
  else if String.eqb (unit m) "ratio" && Qeq_bool (value m) (3 # 10)
  then "30%"
  else "".


End CustomMetrics.
